(** * Jerry Moran news search: the aggregation and filter pipeline of app.py

    A shallow embedding of [clean_text] and [search_jerry_moran_news]
    (src/app.py) together with the Python string operations they rely on,
    followed by the properties of the pipeline. *)

From Stdlib Require Import NArith ZArith String Ascii DecimalString.
From stdpp Require Import base list gmap.
From Equations Require Import Equations.

Local Open Scope N_scope.
Set Warnings "-clear-no-such-hyp".


(** ** Python strings *)

(** A Python [str] is a sequence of Unicode code points. *)
Module Py.

Abbreviation str := (list N).

(** A string literal of the source (ASCII text). *)
Definition lit (s : string) : str :=
  (fun a => N_of_ascii a) <$> list_ascii_of_string s.

(** The Unicode database of the interpreter, for the code points above
    ASCII: CPython's [Py_UNICODE_ISALNUM] and [Py_UNICODE_ISSPACE]. The
    tables are not part of the repository; the pipeline is parametric in
    them. *)
Class UnicodeData := {
  ucd_isalnum : N -> bool;
  ucd_isspace : N -> bool
}.

(** The tables with no alphanumeric and no white space character above
    ASCII; they serve to run the pipeline on ASCII text. *)
Definition ascii_tables : UnicodeData :=
  {| ucd_isalnum := fun _ => false; ucd_isspace := fun _ => false |}.

Definition between (lo hi c : N) : bool := (lo <=? c) && (c <=? hi).

(** [0-9A-Za-z] *)
Definition ascii_isalnum (c : N) : bool :=
  between 48 57 c || between 65 90 c || between 97 122 c.

(** TAB, LF, VT, FF, CR, the separators FS, GS, RS, US, and the space. *)
Definition ascii_isspace (c : N) : bool :=
  between 9 13 c || between 28 31 c || (c =? 32).

Section Chars.
Context `{UnicodeData}.

Definition isalnum (c : N) : bool :=
  if c <? 128 then ascii_isalnum c else ucd_isalnum c.

(** White space, for [\s] and for [str.strip()] alike. *)
Definition isspace (c : N) : bool :=
  if c <? 128 then ascii_isspace c else ucd_isspace c.

(** [\w] on a [str] pattern: alphanumeric or the underscore. *)
Definition re_word (c : N) : bool := isalnum c || (c =? 95).

(** [str.lstrip()], [str.rstrip()] and [str.strip()] without argument. *)
Fixpoint lstrip (s : str) : str :=
  match s with
  | [] => []
  | c :: s' => if isspace c then lstrip s' else s
  end.

Definition rstrip (s : str) : str := reverse (lstrip (reverse s)).

Definition strip (s : str) : str := rstrip (lstrip s).
End Chars.

(** [s.startswith(p)] *)
Fixpoint startswith (s p : str) {struct p} : bool :=
  match p, s with
  | [], _ => true
  | _ :: _, [] => false
  | x :: p', c :: s' => (x =? c) && startswith s' p'
  end.

(** [s.endswith(p)] *)
Definition endswith (s p : str) : bool := startswith (reverse s) (reverse p).

(** [sub in s] *)
Fixpoint contains (sub s : str) : bool :=
  startswith s sub ||
  match s with
  | [] => false
  | _ :: s' => contains sub s'
  end.

(** [s.replace(old, new)] for a non-empty [old]: the occurrences of [old]
    are found from left to right and do not overlap. *)
Equations? replace_scan (old new s : str) : str by wf (length s) lt :=
  replace_scan old new [] := [];
  replace_scan old new (c :: s') :=
    if startswith (c :: s') old
    then new ++ replace_scan old new (drop (length old - 1) s')
    else c :: replace_scan old new s'.
Proof. all: simpl; rewrite ?length_drop; lia. Qed.

(** [s.replace(old, new)]; an empty [old] matches before every character
    and at the end. *)
Definition replace (s old new : str) : str :=
  match old with
  | [] => new ++ flat_map (fun c => c :: new) s
  | _ :: _ => replace_scan old new s
  end.

(** The length of the longest prefix of [s] whose characters all satisfy
    [p]: what a greedy [[...]+] consumes at the start of [s]. *)
Fixpoint run_length (p : N -> bool) (s : str) : nat :=
  match s with
  | [] => 0%nat
  | c :: s' => if p c then S (run_length p s') else 0%nat
  end.

(** [re.sub('[...]+', '', s)] for a character class given by its
    membership test [p]: every maximal run of members is replaced by the
    empty string. *)
Equations? re_sub_runs (p : N -> bool) (s : str) : str by wf (length s) lt :=
  re_sub_runs p [] := [];
  re_sub_runs p (c :: s') :=
    if p c then re_sub_runs p (drop (run_length p s') s')
    else c :: re_sub_runs p s'.
Proof. all: simpl; rewrite ?length_drop; lia. Qed.

(** [f'{n}'] for an integer [n]. *)
Definition format_int (n : Z) : str := lit (NilEmpty.string_of_int (Z.to_int n)).

End Py.

(** ** The pipeline of app.py *)

Import Py.

(** [kansas_outlets], the module-level list of lines 27-45. *)
Definition kansas_outlets : list str :=
  [ lit "Kansas Reflector";
    lit "The Topeka Capital-Journal";
    lit "The Wichita Eagle";
    lit "KCLY Radio";
    lit "KSN-TV";
    lit "KWCH";
    lit "Kansas City Star";
    lit "Lawrence Journal-World";
    lit "The Garden City Telegram";
    lit "KSNT 27 News";
    lit "The Hutchinson News";
    lit "Salina Journal";
    lit "Hays Daily News";
    lit "Hays Post";
    lit "Emporia Gazette";
    lit "JC Post";
    lit "WIBW" ].

(** The punctuation marks listed in the pattern of [clean_text]:
    - . , : ; ! ? ( ) ' and the double quote. *)
Definition kept_punctuation : list N :=
  [45; 46; 44; 58; 59; 33; 63; 40; 41; 39; 34].

(** One record of [google_news.get_news(...)], with the four keys the
    function reads: ['title'], ['url'], ['publisher']['title'] and
    ['published date']. *)
Record gnews_entry := {
  entry_title : str;
  entry_url : str;
  entry_publisher_title : str;
  entry_published_date : str
}.

(** The attributes set on the [GNews] object (lines 54-58). *)
Record GNews := {
  period : str;
  results : Z;
  country : str;
  language : str
}.

(** What the [try] block of lines 82-94 gets from one search term: the
    entries on which the body of the inner loop ran to its end, and whether
    the block was then left by an exception. [raised] with no entry is a
    call [get_news] that raises; [raised] after some entries is an exception
    met while the response is read, such as line 90 on an entry that has no
    publisher title. *)
Record response := {
  delivered : list gnews_entry;
  raised : bool
}.

(** The search provider: [google_news.get_news(search_term)]. *)
Definition provider := GNews -> str -> response.

(** The dictionaries appended to [all_entries] (lines 87-92). *)
Record converted_entry := {
  e_title : str;
  e_link : str;
  e_source_title : str;
  e_published : str
}.

(** The dictionaries appended to [filtered_results] (lines 130-136). *)
Record article := {
  a_title : str;
  a_media : str;
  a_link : str;
  a_is_kansas : bool;
  a_published : str
}.

(** The search terms of lines 61-69. *)
Definition search_terms : list str :=
  [ lit "Jerry Moran";
    lit "Senator Jerry Moran";
    lit "Senator Moran";
    lit "Sen. Moran";
    lit "Sen. Jerry Moran";
    lit "Sens. Moran";
    lit "Sens. Jerry Moran" ].

(** The state of the first loop: [all_entries], [seen_links], and the
    search terms for which [st.warning] was called. *)
Record merge_state := {
  all_entries : list converted_entry;
  seen_links : gset str;
  warned : list str
}.

Definition convert (entry : gnews_entry) : converted_entry :=
  {| e_title := entry_title entry;
     e_link := entry_url entry;
     e_source_title := entry_publisher_title entry;
     e_published := entry_published_date entry |}.

(** The body of the inner loop (lines 86-94). *)
Definition merge_entry (st : merge_state) (entry : gnews_entry) : merge_state :=
  if decide (entry_url entry ∈ seen_links st) then st
  else {| all_entries := all_entries st ++ [convert entry];
          seen_links := seen_links st ∪ {[ entry_url entry ]};
          warned := warned st |}.

(** The body of the outer loop (lines 82-96): what the entries did to the
    state before an exception stays done. *)
Definition search_one (google_news : provider) (gn : GNews)
    (st : merge_state) (search_term : str) : merge_state :=
  let r := google_news gn search_term in
  let st' := foldl merge_entry st (delivered r) in
  if raised r
  then {| all_entries := all_entries st';
          seen_links := seen_links st';
          warned := warned st' ++ [search_term] |}
  else st'.

Definition configure (days : Z) : GNews :=
  {| period := format_int days ++ lit "d";
     results := 100;
     country := lit "US";
     language := lit "en" |}.

(** Lines 54-96. *)
Definition fan_out (google_news : provider) (days : Z) : merge_state :=
  foldl (search_one google_news (configure days))
        {| all_entries := []; seen_links := ∅; warned := [] |}
        search_terms.

(** The state of the second loop: [filtered_results] and [seen_titles]. *)
Record filter_state := {
  filtered_results : list article;
  seen_titles : gset str
}.

Section Pipeline.
Context `{UnicodeData}.

(** The characters the pattern of [clean_text] spares. *)
Definition in_kept_class (c : N) : bool :=
  re_word c || isspace c || bool_decide (c ∈ kept_punctuation).

(** [clean_text] (lines 47-50). *)
Definition clean_text (text : str) : str :=
  strip (re_sub_runs (fun c => negb (in_kept_class c)) text).

(** Lines 118-119: [safe_title] from the title and the publisher. *)
Definition safe_title_of (title media : str) : str :=
  clean_text (replace title (lit " - " ++ media) []).

(** Lines 112-115: the record is skipped by a source filter. *)
Definition excluded (exclude_gov exclude_quiver : bool) (media : str) : bool :=
  (exclude_gov && contains (lit ".gov") media)
  || (exclude_quiver && contains (lit "Quiver Quantitative") media).

(** The body of the second loop (lines 107-136); [outlets] is the list
    [kansas_outlets] that line 128 reads. *)
Definition filter_entry (outlets : list str) (exclude_gov exclude_quiver : bool)
    (st : filter_state) (entry : converted_entry) : filter_state :=
  let title := e_title entry in
  let link := e_link entry in
  let media := e_source_title entry in
  if exclude_gov && contains (lit ".gov") media then st
  else if exclude_quiver && contains (lit "Quiver Quantitative") media then st
  else
    let clean_title := replace title (lit " - " ++ media) [] in
    let safe_title := clean_text clean_title in
    let safe_media := clean_text media in
    if decide (safe_title ∈ seen_titles st) then st
    else
      let is_kansas := existsb (fun kansas_outlet => contains kansas_outlet media) outlets in
      {| filtered_results :=
           filtered_results st ++
           [ {| a_title := safe_title; a_media := safe_media; a_link := link;
                a_is_kansas := is_kansas; a_published := e_published entry |} ];
         seen_titles := seen_titles st ∪ {[ safe_title ]} |}.

(** Lines 103-136. *)
Definition filter_entries (outlets : list str) (exclude_gov exclude_quiver : bool)
    (entries : list converted_entry) : list article :=
  filtered_results
    (foldl (filter_entry outlets exclude_gov exclude_quiver)
           {| filtered_results := []; seen_titles := ∅ |} entries).

(** [search_jerry_moran_news] (lines 52-138). *)
Definition search_jerry_moran_news (google_news : provider) (days : Z)
    (exclude_gov exclude_quiver : bool) : list article * nat :=
  let merged := all_entries (fan_out google_news days) in
  (filter_entries kansas_outlets exclude_gov exclude_quiver merged, length merged).
End Pipeline.

(** ** Reference definitions used to state the properties *)

(** The records of [l] whose key was not seen before, in the order of [l]:
    the recursive reading of a loop that skips what is in [seen] and adds
    what it keeps. *)
Fixpoint first_seen {A : Type} (key : A -> str) (seen : gset str) (l : list A) : list A :=
  match l with
  | [] => []
  | x :: l' =>
      if decide (key x ∈ seen) then first_seen key seen l'
      else x :: first_seen key (seen ∪ {[ key x ]}) l'
  end.

(** Everything the provider handed over during a run, in the order of the
    search terms and, within a term, in the order of the response. *)
Definition offered (google_news : provider) (days : Z) : list gnews_entry :=
  flat_map (fun search_term => delivered (google_news (configure days) search_term))
           search_terms.

(** The entries of the search terms that did not raise. *)
Definition offered_by_successful (google_news : provider) (days : Z) : list gnews_entry :=
  flat_map (fun search_term =>
              let r := google_news (configure days) search_term in
              if raised r then [] else delivered r)
           search_terms.

(** [sub] occurs in [s]. *)
Definition substring (sub s : str) : Prop :=
  exists pre post, s = pre ++ sub ++ post.

(** The number of distinct links of a list of entries. *)
Definition distinct_links (l : list gnews_entry) : nat :=
  size (list_to_set (entry_url <$> l) : gset str).

(** [all_entries] when the first loop has ended (line 98). *)
Definition merged_entries (google_news : provider) (days : Z) : list converted_entry :=
  all_entries (fan_out google_news days).

(** The provider that hands over what [google_news] does and never raises. *)
Definition silenced (google_news : provider) : provider :=
  fun gn search_term =>
    {| delivered := delivered (google_news gn search_term); raised := false |}.

Section Reference.
Context `{UnicodeData}.

(** [safe_title] of a merged record. *)
Definition safe_title (entry : converted_entry) : str :=
  safe_title_of (e_title entry) (e_source_title entry).

(** The record is skipped by a source filter. *)
Definition filtered_out (exclude_gov exclude_quiver : bool) (entry : converted_entry) : bool :=
  excluded exclude_gov exclude_quiver (e_source_title entry).

(** The merged records that pass the source filters, and among them the
    first of each cleaned title. *)
Definition passing_entries (exclude_gov exclude_quiver : bool)
    (entries : list converted_entry) : list converted_entry :=
  filter (fun e => filtered_out exclude_gov exclude_quiver e = false) entries.

Definition kept_entries (exclude_gov exclude_quiver : bool)
    (entries : list converted_entry) : list converted_entry :=
  first_seen safe_title ∅ (passing_entries exclude_gov exclude_quiver entries).

(** The article made of a merged record that is kept. *)
Definition article_of (outlets : list str) (entry : converted_entry) : article :=
  {| a_title := safe_title entry;
     a_media := clean_text (e_source_title entry);
     a_link := e_link entry;
     a_is_kansas := existsb (fun o => contains o (e_source_title entry)) outlets;
     a_published := e_published entry |}.

(** [seen_titles] when the second loop has ended. *)
Definition final_seen_titles (outlets : list str) (exclude_gov exclude_quiver : bool)
    (entries : list converted_entry) : gset str :=
  seen_titles
    (foldl (filter_entry outlets exclude_gov exclude_quiver)
           {| filtered_results := []; seen_titles := ∅ |} entries).

(** An article without its regional flag. *)
Definition unflagged (a : article) : str * str * str * str :=
  (a_title a, a_media a, a_link a, a_published a).

(** Title cleaning as the specification words it: only a trailing
    [" - " ++ media] is removed, and the characters kept are the
    alphanumeric ones, white space and the listed punctuation. *)
Definition spec_strip_suffix (title media : str) : str :=
  let suffix := lit " - " ++ media in
  if endswith title suffix
  then take (length title - length suffix) title
  else title.

(** A string that does not start with white space. *)
Definition no_lead (s : str) : Prop :=
  match s with
  | [] => True
  | c :: _ => isspace c = false
  end.

Definition spec_kept (c : N) : bool :=
  isalnum c || isspace c || bool_decide (c ∈ kept_punctuation).

Definition spec_clean (text : str) : str := strip (filter (fun c => spec_kept c = true) text).

Definition spec_safe_title (title media : str) : str :=
  spec_clean (spec_strip_suffix title media).
End Reference.

(** ** Providers for the examples *)

Definition entry (title url publisher published : string) : gnews_entry :=
  {| entry_title := lit title;
     entry_url := lit url;
     entry_publisher_title := lit publisher;
     entry_published_date := lit published |}.

(** The provider that answers the search term "Jerry Moran" with [first],
    "Senator Moran" with [third], and every other search term with [other]. *)
Definition answers (first third other : response) : provider :=
  fun _ search_term =>
    if decide (search_term = lit "Jerry Moran") then first
    else if decide (search_term = lit "Senator Moran") then third
    else other.

Definition item (title media link : string) (is_kansas : bool) (published : string) : article :=
  {| a_title := lit title;
     a_media := lit media;
     a_link := lit link;
     a_is_kansas := is_kansas;
     a_published := lit published |}.

Definition nothing : response := {| delivered := []; raised := false |}.

Definition call_raises : response := {| delivered := []; raised := true |}.

(** The records of the end-to-end example of the specification. *)
Definition farm_bill_kwch : gnews_entry :=
  entry "Moran Talks Farm Bill - KWCH" "https://x/a1" "KWCH" "Mon, 06 Jan 2025".

Definition farm_bill_wibw : gnews_entry :=
  entry "Moran Talks Farm Bill - WIBW" "https://x/a2" "WIBW" "Mon, 06 Jan 2025".

Definition press_release : gnews_entry :=
  entry "Moran Talks Farm Bill - Example.gov" "https://x/g1" "Example.gov" "Sun, 05 Jan 2025".

Definition cnn_report : gnews_entry :=
  entry "Senate passes bill" "https://x/c1" "CNN" "Tue, 07 Jan 2025".

Definition gov_notice : gnews_entry :=
  entry "Grant announced" "https://x/g2" "Example.gov" "Sun, 05 Jan 2025".

Definition end_to_end : provider :=
  answers {| delivered := [farm_bill_kwch; gov_notice]; raised := false |}
          {| delivered := [farm_bill_kwch; farm_bill_wibw; cnn_report]; raised := false |}
          call_raises.

(** A title that names the publisher twice, and a title with an underscore. *)
Definition twice_named : gnews_entry :=
  entry "Moran - KWCH visits - KWCH" "https://x/t1" "KWCH" "Mon, 06 Jan 2025".

Definition with_underscore : gnews_entry :=
  entry "farm_bill vote" "https://x/u1" "CNN" "Mon, 06 Jan 2025".

Definition odd_titles : provider :=
  answers {| delivered := [twice_named; with_underscore]; raised := false |} nothing nothing.

(** Every search term raises: the first after one record was merged (a
    response whose second entry has no ['publisher']['title'], say), the
    others in the call. *)
Definition interrupted : provider :=
  answers {| delivered := [farm_bill_kwch]; raised := true |} call_raises call_raises.

(** Every call raises. *)
Definition unreachable : provider := answers call_raises call_raises call_raises.

(** A press release and a report with the same cleaned title. *)
Definition same_title : provider :=
  answers {| delivered := [press_release; farm_bill_kwch]; raised := false |} nothing nothing.

(** ** The page of a search (lines 141-203) *)

(** What the script puts on the page once the search has returned. An
    expander holds the one [st.markdown] written inside it; the two download
    buttons stand in their columns, left to right. *)
Inductive widget :=
| st_success (body : str)
| st_info (body : str)
| st_markdown (body : str)
| st_expander (label content : str)
| st_download_button (label data file_name mime : str)
| st_warning (body : str).

(** The three readings of [datetime.now()], as [strftime] renders them:
    ['%Y-%m-%d %H:%M:%S'] at line 170, ['%Y%m%d'] at lines 184 and 198. *)
Record clock := {
  searched_at : str;
  markdown_day : str;
  text_day : str
}.

(** ["*" if article['is_kansas'] else ""] *)
Definition kansas_indicator (article : article) : str :=
  if a_is_kansas article then lit "*" else [].

(** [sum(1 for r in results if r['is_kansas'])] (line 149). *)
Definition kansas_count (results : list article) : nat :=
  sum_list ((fun _ => 1%nat) <$> filter (fun r => a_is_kansas r = true) results).

(** The label of the expander of the [i]-th article (line 160). *)
Definition expander_label (i : nat) (article : article) : str :=
  format_int (Z.of_nat i) ++ lit ". " ++ kansas_indicator article ++ a_media article
  ++ lit ": " ++ take 80 (a_title article) ++ lit "...".

(** The text inside the expander (lines 161-166): each line of the
    triple-quoted string starts with sixteen spaces. *)
Definition expander_content (article : article) : str :=
  let margin := replicate 16 32 in
  [10] ++ margin ++ lit "**Media Source:** " ++ kansas_indicator article ++ a_media article
  ++ [10] ++ margin ++ lit "**Title:** " ++ a_title article
  ++ [10] ++ margin ++ lit "**Published:** " ++ a_published article
  ++ [10] ++ margin ++ lit "**Link:** [" ++ a_title article ++ lit "](" ++ a_link article ++ lit ")"
  ++ [10] ++ margin.

(** The line of an article in the Markdown download (line 175). *)
Definition markdown_line (article : article) : str :=
  lit "- " ++ kansas_indicator article ++ a_media article ++ lit ": ["
  ++ a_title article ++ lit "](" ++ a_link article ++ lit ")" ++ [10].

(** [markdown_content] (lines 169-175). *)
Definition markdown_content (stamp : str) (days : Z) (results : list article) : str :=
  foldl (fun content article => content ++ markdown_line article)
        ((lit "# Jerry Moran News" ++ [10; 10])
         ++ (lit "*Search conducted on " ++ stamp ++ lit "*" ++ [10])
         ++ (lit "*Time range: Last " ++ format_int days ++ lit " days*" ++ [10; 10]))
        results.

(** The lines of an article in the text download (line 193). *)
Definition text_line (article : article) : str :=
  kansas_indicator article ++ a_media article ++ lit ": " ++ a_title article
  ++ [10] ++ a_link article ++ [10; 10].

(** [text_content] (lines 190-193). *)
Definition text_content (results : list article) : str :=
  foldl (fun content article => content ++ text_line article)
        (lit "Jerry Moran News" ++ [10] ++ replicate 50 61 ++ [10; 10])
        results.

(** Lines 145-203: what is shown for [results] and [total_found]. *)
Definition show_results (now : clock) (days : Z)
    (results : list article) (total_found : nat) : list widget :=
  match results with
  | [] => [ st_warning (lit "No articles found. Try adjusting your search parameters.") ]
  | _ :: _ =>
      [ st_success (lit "Found " ++ format_int (Z.of_nat (length results))
                    ++ lit " unique articles (from "
                    ++ format_int (Z.of_nat total_found) ++ lit " total results)") ]
      ++ (if decide (0 < kansas_count results)%nat
          then [ st_info ([128205] ++ lit " "
                          ++ format_int (Z.of_nat (kansas_count results))
                          ++ lit " articles from Kansas outlets") ]
          else [])
      ++ [ st_markdown (lit "---") ]
      ++ imap (fun i article =>
                 st_expander (expander_label (S i) article) (expander_content article))
              results
      ++ [ st_download_button ([128229] ++ lit " Download as Markdown")
             (markdown_content (searched_at now) days results)
             (lit "jerry_moran_news_" ++ markdown_day now ++ lit ".md")
             (lit "text/markdown");
           st_download_button ([128196] ++ lit " Download as Text")
             (text_content results)
             (lit "jerry_moran_news_" ++ text_day now ++ lit ".txt")
             (lit "text/plain") ]
  end.


(** An article whose title and publisher name are cleaned texts. *)
Definition displayable `{UnicodeData} (article : article) : Prop :=
  clean_text (a_title article) = a_title article
  /\ clean_text (a_media article) = a_media article.

(** A clock for the examples. *)
Definition monday_noon : clock :=
  {| searched_at := lit "2025-01-06 12:00:00";
     markdown_day := lit "20250106";
     text_day := lit "20250106" |}.

(** Four search terms answer with the same two reports. *)
Definition repeating : provider :=
  fun _ search_term =>
    if decide (search_term ∈ [lit "Jerry Moran"; lit "Senator Moran"; lit "Sen. Moran";
                              lit "Sens. Moran"])
    then {| delivered := [farm_bill_kwch; cnn_report]; raised := false |}
    else nothing.

(** Characters with a meaning in Markdown or HTML that the pattern of
    [clean_text] does not list. *)
Definition markup_characters : str := lit "<>[]{}*#&|/\@$%^+=~`".

(** ** Python strings: lemmas *)

Section StringFacts.
Context `{UnicodeData}.

Lemma startswith_spec (s p : str) :
  startswith s p = true <-> exists t, s = p ++ t.
Proof.
  revert s; induction p as [|x p IH]; intros s; simpl.
  - split; [intros _; by exists s | done].
  - destruct s as [|c s]; simpl.
    + split; [done | intros [t Ht]; done].
    + rewrite andb_true_iff, N.eqb_eq, IH. split.
      * intros [-> [t ->]]. eauto.
      * intros [t Ht]. injection Ht as -> ->. eauto.
Qed.

Lemma contains_spec (sub s : str) :
  contains sub s = true <-> substring sub s.
Proof.
  unfold substring.
  induction s as [|c s IH].
  - simpl. rewrite orb_false_r, startswith_spec. split.
    + intros [t Ht]. exists [], t. done.
    + intros (pre & post & Hs). symmetry in Hs.
      apply app_eq_nil in Hs as [-> Hs]. apply app_eq_nil in Hs as [-> ->].
      exists []. done.
  - cbn [contains]. rewrite orb_true_iff, IH, startswith_spec. split.
    + intros [[t Ht] | (pre & post & Hs)].
      * exists [], t. done.
      * exists (c :: pre), post. by rewrite Hs.
    + intros (pre & post & Hs). destruct pre as [|c' pre].
      * left. exists post. done.
      * right. injection Hs as -> ->. eauto.
Qed.

(** Deleting the maximal runs of a class deletes its members. *)
Lemma filter_drop_run (p : N -> bool) (s : str) :
  filter (fun c => p c = false) (drop (run_length p s) s)
  = filter (fun c => p c = false) s.
Proof.
  induction s as [|c s IH]; simpl; [done|].
  destruct (p c) eqn:Hc; simpl.
  - rewrite IH, filter_cons_False; [done | congruence].
  - done.
Qed.

Lemma re_sub_runs_filter (p : N -> bool) (s : str) :
  re_sub_runs p s = filter (fun c => p c = false) s.
Proof.
  funelim (re_sub_runs p s); [done|].
  clear Heqcall. destruct (p c) eqn:Hc.
  - rewrite filter_cons_False by congruence.
    etrans; [eassumption | apply filter_drop_run].
  - rewrite filter_cons_True by done. f_equal. assumption.
Qed.

(** [clean_text] keeps the characters of the class and trims. *)
Lemma clean_text_filter (text : str) :
  clean_text text = strip (filter (fun c => in_kept_class c = true) text).
Proof.
  unfold clean_text. rewrite re_sub_runs_filter. f_equal.
  apply list_filter_iff. intros c. destruct (in_kept_class c); simpl; split; congruence.
Qed.

Lemma lstrip_no_lead (s : str) : no_lead (lstrip s).
Proof.
  induction s as [|c s IH]; simpl; [done|].
  destruct (isspace c) eqn:Hc; [done | exact Hc].
Qed.

Lemma no_lead_lstrip (s : str) : no_lead s -> lstrip s = s.
Proof. destruct s as [|c s]; simpl; [done|]. by intros ->. Qed.

Lemma lstrip_suffix (s : str) : exists pre, s = pre ++ lstrip s.
Proof.
  induction s as [|c s [pre IH]]; simpl.
  - by exists [].
  - destruct (isspace c).
    + exists (c :: pre). simpl. by f_equal.
    + by exists [].
Qed.

Lemma rstrip_prefix (s : str) : exists post, s = rstrip s ++ post.
Proof.
  unfold rstrip. destruct (lstrip_suffix (reverse s)) as [pre Hpre].
  exists (reverse pre).
  rewrite <- reverse_app, <- Hpre. by rewrite reverse_involutive.
Qed.

Lemma no_lead_prefix (s t : str) : no_lead (s ++ t) -> no_lead s.
Proof. by destruct s. Qed.

Lemma strip_no_lead (s : str) : no_lead (strip s).
Proof.
  unfold strip. destruct (rstrip_prefix (lstrip s)) as [post Hpost].
  apply (no_lead_prefix _ post). rewrite <- Hpost. apply lstrip_no_lead.
Qed.

Lemma strip_no_trail (s : str) : no_lead (reverse (strip s)).
Proof.
  unfold strip, rstrip. rewrite reverse_involutive. apply lstrip_no_lead.
Qed.

Lemma strip_fixed (s : str) :
  no_lead s -> no_lead (reverse s) -> strip s = s.
Proof.
  intros Hl Hr. unfold strip, rstrip.
  rewrite (no_lead_lstrip s Hl), (no_lead_lstrip _ Hr).
  apply reverse_involutive.
Qed.

Lemma strip_idempotent (s : str) : strip (strip s) = strip s.
Proof. apply strip_fixed; [apply strip_no_lead | apply strip_no_trail]. Qed.

Lemma strip_infix (s : str) : exists pre post, s = pre ++ strip s ++ post.
Proof.
  unfold strip. destruct (lstrip_suffix s) as [pre Hpre].
  destruct (rstrip_prefix (lstrip s)) as [post Hpost].
  exists pre, post. by rewrite <- Hpost.
Qed.

Lemma elem_of_strip (c : N) (s : str) : c ∈ strip s -> c ∈ s.
Proof.
  destruct (strip_infix s) as (pre & post & Hs). intros Hc.
  rewrite Hs. set_solver.
Qed.

Lemma clean_text_kept (c : N) (text : str) :
  c ∈ clean_text text -> in_kept_class c = true.
Proof.
  rewrite clean_text_filter. intros Hc%elem_of_strip.
  by apply list_elem_of_filter in Hc as [Hc _].
Qed.
End StringFacts.

(** *** [str.replace] *)

Lemma startswith_take (s p : str) :
  startswith s p = true <-> take (length p) s = p.
Proof.
  rewrite startswith_spec. split.
  - intros [t ->]. by rewrite take_app_length.
  - intros Htake. exists (drop (length p) s).
    by rewrite <- Htake at 1; rewrite take_drop.
Qed.

Lemma contains_cons_false (sub : str) (c : N) (s : str) :
  contains sub (c :: s) = false ->
  startswith (c :: s) sub = false /\ contains sub s = false.
Proof. cbn [contains]. by intros [? ?]%orb_false_iff. Qed.

(** Without an occurrence of [old] nothing is replaced. *)
Lemma replace_scan_absent (old new s : str) :
  contains old s = false -> replace_scan old new s = s.
Proof.
  induction s as [|c s IH]; [done|].
  intros [Hhere Hlater]%contains_cons_false.
  rewrite replace_scan_equation_2, Hhere. f_equal. by apply IH.
Qed.

(** The first occurrence of [old] is replaced, wherever it stands, and the
    scan goes on behind it. *)
Lemma replace_scan_occurrence (old new pre post : str) :
  old <> [] ->
  contains old (pre ++ take (length old - 1) old) = false ->
  replace_scan old new (pre ++ old ++ post) = pre ++ new ++ replace_scan old new post.
Proof.
  intros Hold. induction pre as [|c pre IH]; intros Hearlier.
  - destruct old as [|x old]; [done|]. simpl app.
    rewrite replace_scan_equation_2.
    assert (startswith (x :: old ++ post) (x :: old) = true) as ->
      by (apply startswith_spec; by exists post).
    simpl. by rewrite Nat.sub_0_r, drop_app_length.
  - simpl app in *. apply contains_cons_false in Hearlier as [Hhere Hlater].
    rewrite replace_scan_equation_2.
    destruct (startswith (c :: pre ++ old ++ post) old) eqn:Hstart.
    + exfalso. rewrite <- not_true_iff_false in Hhere. apply Hhere.
      apply startswith_take. apply startswith_take in Hstart.
      destruct old as [|x old]; [done|].
      simpl in *. rewrite Nat.sub_0_r.
      injection Hstart as -> Hstart. f_equal. etrans; [|exact Hstart].
      rewrite !take_app, take_take, Nat.min_l by lia. f_equal.
      change (x :: old ++ post) with ((x :: old) ++ post).
      rewrite take_app_le by (simpl; lia). done.
    + f_equal. by apply IH.
Qed.

Lemma filter_all {A : Type} (P : A -> Prop) `{!forall x, Decision (P x)} (l : list A) :
  (forall x, x ∈ l -> P x) -> filter P l = l.
Proof.
  induction l as [|x l IH]; intros Hall; [done|].
  rewrite filter_cons_True by (apply Hall; left).
  f_equal. apply IH. intros y Hy. apply Hall. by right.
Qed.

Section Cleaning.
Context `{UnicodeData}.

(** C8. Cleaning is idempotent: cleaning a text that [clean_text] returned
    gives that text back. *)
Theorem clean_text_idempotent (text : str) :
  clean_text (clean_text text) = clean_text text.
Proof.
  rewrite (clean_text_filter (clean_text text)).
  rewrite filter_all by (intros c Hc; by apply clean_text_kept in Hc).
  rewrite clean_text_filter. apply strip_idempotent.
Qed.
End Cleaning.

(** ** Keeping what is seen first *)

Section FirstSeen.
Context {A : Type} (key : A -> str).

Lemma first_seen_sublist (seen : gset str) (l : list A) :
  sublist (first_seen key seen l) l.
Proof.
  revert seen; induction l as [|x l IH]; intros seen; simpl.
  - constructor.
  - case_decide; [apply sublist_cons | apply sublist_skip]; apply IH.
Qed.

Lemma first_seen_fresh (seen : gset str) (l : list A) (x : A) :
  x ∈ first_seen key seen l -> key x ∉ seen.
Proof.
  revert seen; induction l as [|y l IH]; intros seen; simpl.
  - by intros ?%elem_of_nil.
  - case_decide as Hy.
    + apply IH.
    + intros [-> | Hx]%elem_of_cons; [done|].
      apply IH in Hx. set_solver.
Qed.

Lemma first_seen_NoDup (seen : gset str) (l : list A) :
  NoDup (key <$> first_seen key seen l).
Proof.
  revert seen; induction l as [|x l IH]; intros seen; simpl.
  - constructor.
  - case_decide; [apply IH|].
    rewrite fmap_cons. constructor; [|apply IH].
    intros (y & Hxy & Hy)%list_elem_of_fmap.
    apply first_seen_fresh in Hy. set_solver.
Qed.

(** Every key that was offered and not seen before is kept. *)
Lemma first_seen_covers (seen : gset str) (l : list A) (x : A) :
  x ∈ l -> key x ∉ seen -> key x ∈ key <$> first_seen key seen l.
Proof.
  revert seen; induction l as [|y l IH]; intros seen; simpl.
  - by intros ?%elem_of_nil.
  - intros [-> | Hx]%elem_of_cons Hseen.
    + rewrite decide_False by done. rewrite fmap_cons. left.
    + case_decide as Hy; [by apply IH|].
      rewrite fmap_cons. destruct (decide (key x = key y)) as [-> | Hne].
      * left.
      * right. apply IH; [done | set_solver].
  Qed.

(** The first record of each key is the one kept. *)
Lemma first_seen_first (seen : gset str) (l1 l2 : list A) (x : A) :
  key x ∉ seen -> key x ∉ key <$> l1 -> x ∈ first_seen key seen (l1 ++ x :: l2).
Proof.
  revert seen; induction l1 as [|y l1 IH]; intros seen Hseen Hl1; simpl.
  - rewrite decide_False by done. left.
  - rewrite fmap_cons, not_elem_of_cons in Hl1. destruct Hl1 as [Hne Hl1].
    case_decide; [by apply IH|].
    right. apply IH; [set_solver | done].
Qed.

Lemma first_seen_only_first (seen : gset str) (l : list A) (x : A) :
  x ∈ first_seen key seen l ->
  exists l1 l2, l = l1 ++ x :: l2 /\ key x ∉ key <$> l1.
Proof.
  revert seen; induction l as [|y l IH]; intros seen; simpl.
  - by intros ?%elem_of_nil.
  - case_decide as Hy.
    + intros Hx. pose proof (first_seen_fresh _ _ _ Hx) as Hfresh.
      destruct (IH _ Hx) as (l1 & l2 & -> & Hl1).
      exists (y :: l1), l2. split; [done|].
      rewrite fmap_cons, not_elem_of_cons. split; [congruence | done].
    + intros [-> | Hx]%elem_of_cons.
      * exists [], l. split; [done | by intros ?%elem_of_nil].
      * pose proof (first_seen_fresh _ _ _ Hx) as Hfresh.
        destruct (IH _ Hx) as (l1 & l2 & -> & Hl1).
        exists (y :: l1), l2. split; [done|].
        rewrite fmap_cons, not_elem_of_cons. split; [set_solver | done].
Qed.

Lemma first_seen_app (seen : gset str) (l1 l2 : list A) :
  first_seen key seen (l1 ++ l2)
  = first_seen key seen l1 ++ first_seen key (seen ∪ list_to_set (key <$> l1)) l2.
Proof.
  revert seen; induction l1 as [|x l1 IH]; intros seen; simpl.
  - by rewrite (right_id_L ∅ (∪)).
  - case_decide as Hx.
    + rewrite IH. do 2 f_equal. set_solver.
    + simpl. rewrite IH. do 3 f_equal. set_solver.
Qed.

(** The keys kept are the keys offered, less those seen before. *)
Lemma first_seen_keys (seen : gset str) (l : list A) :
  (list_to_set (key <$> first_seen key seen l) : gset str)
  = list_to_set (key <$> l) ∖ seen.
Proof.
  revert seen; induction l as [|x l IH]; intros seen; simpl.
  - set_solver.
  - case_decide as Hx.
    + rewrite IH. set_solver.
    + rewrite fmap_cons, list_to_set_cons, IH.
      apply set_eq. intros k. set_unfold.
      destruct (decide (k = key x)); naive_solver.
Qed.

Lemma first_seen_length (seen : gset str) (l : list A) :
  length (first_seen key seen l) = size (list_to_set (key <$> l) ∖ seen : gset str).
Proof.
  rewrite <- first_seen_keys.
  rewrite <- (length_fmap key), size_list_to_set; [done|].
  apply first_seen_NoDup.
Qed.
End FirstSeen.

(** ** The two loops *)

Lemma e_link_convert (es : list gnews_entry) :
  e_link <$> (convert <$> es) = entry_url <$> es.
Proof. by rewrite <- list_fmap_compose. Qed.

(** The inner loop of the first phase. *)
Lemma foldl_merge_entry (es : list gnews_entry) (st : merge_state) :
  foldl merge_entry st es =
  {| all_entries := all_entries st ++ first_seen e_link (seen_links st) (convert <$> es);
     seen_links := seen_links st ∪ list_to_set (entry_url <$> es);
     warned := warned st |}.
Proof.
  revert st; induction es as [|entry es IH]; intros st; simpl.
  - destruct st; simpl. f_equal; [by rewrite app_nil_r | set_solver].
  - rewrite IH. unfold merge_entry. case_decide as Hseen; simpl.
    + f_equal. set_solver.
    + rewrite <- app_assoc. f_equal. set_solver.
Qed.

(** The outer loop of the first phase, over any list of search terms. *)
Lemma foldl_search_one (google_news : provider) (gn : GNews)
    (terms : list str) (st : merge_state) :
  let handed := flat_map (fun search_term => delivered (google_news gn search_term)) terms in
  foldl (search_one google_news gn) st terms =
  {| all_entries := all_entries st ++ first_seen e_link (seen_links st) (convert <$> handed);
     seen_links := seen_links st ∪ list_to_set (entry_url <$> handed);
     warned := warned st ++ filter (fun search_term => raised (google_news gn search_term) = true) terms |}.
Proof.
  revert st; induction terms as [|term terms IH]; intros st; simpl.
  - destruct st; simpl. f_equal; [by rewrite app_nil_r | set_solver | by rewrite app_nil_r].
  - simpl in IH. rewrite IH. unfold search_one. rewrite foldl_merge_entry.
    rewrite !fmap_app, first_seen_app, e_link_convert, list_to_set_app_L.
    destruct (raised (google_news gn term)) eqn:Hr; simpl.
    + rewrite filter_cons_True by done. rewrite <- !app_assoc. f_equal. set_solver.
    + rewrite filter_cons_False by congruence. rewrite <- !app_assoc. f_equal. set_solver.
Qed.

Lemma fan_out_entries (google_news : provider) (days : Z) :
  all_entries (fan_out google_news days)
  = first_seen e_link ∅ (convert <$> offered google_news days).
Proof. unfold fan_out. by rewrite foldl_search_one. Qed.

Lemma fan_out_warned (google_news : provider) (days : Z) :
  warned (fan_out google_news days)
  = filter (fun search_term => raised (google_news (configure days) search_term) = true)
           search_terms.
Proof. unfold fan_out. by rewrite foldl_search_one. Qed.

Section SecondLoop.
Context `{UnicodeData}.

(** One turn of the second loop. *)
Lemma filter_entry_step (outlets : list str) (exclude_gov exclude_quiver : bool)
    (st : filter_state) (e : converted_entry) :
  filter_entry outlets exclude_gov exclude_quiver st e =
  if filtered_out exclude_gov exclude_quiver e then st
  else if decide (safe_title e ∈ seen_titles st) then st
  else {| filtered_results := filtered_results st ++ [article_of outlets e];
          seen_titles := seen_titles st ∪ {[ safe_title e ]} |}.
Proof.
  unfold filter_entry, filtered_out, excluded, safe_title, safe_title_of, article_of.
  destruct (exclude_gov && contains (lit ".gov") (e_source_title e)); simpl; [done|].
  by destruct (exclude_quiver && contains (lit "Quiver Quantitative") (e_source_title e)).
Qed.

Lemma foldl_filter_entry (outlets : list str) (exclude_gov exclude_quiver : bool)
    (entries : list converted_entry) (st : filter_state) :
  let passing := filter (fun e => filtered_out exclude_gov exclude_quiver e = false) entries in
  foldl (filter_entry outlets exclude_gov exclude_quiver) st entries =
  {| filtered_results :=
       filtered_results st ++
       (article_of outlets <$> first_seen safe_title (seen_titles st) passing);
     seen_titles := seen_titles st ∪ list_to_set (safe_title <$> passing) |}.
Proof.
  revert st; induction entries as [|e entries IH]; intros st; simpl.
  - destruct st; simpl. f_equal; [by rewrite app_nil_r | set_solver].
  - simpl in IH. rewrite IH, filter_entry_step. clear IH.
    destruct (filtered_out exclude_gov exclude_quiver e) eqn:He.
    { by rewrite filter_cons_False by congruence. }
    rewrite filter_cons_True by done. simpl.
    case_decide as Hseen; simpl.
    + f_equal. set_solver.
    + rewrite <- app_assoc. f_equal. set_solver.
Qed.

(** The second phase keeps, of the records that pass the source filters,
    the first of each cleaned title. *)
Lemma filter_entries_first_seen (outlets : list str) (exclude_gov exclude_quiver : bool)
    (entries : list converted_entry) :
  filter_entries outlets exclude_gov exclude_quiver entries
  = article_of outlets <$>
      first_seen safe_title ∅
        (filter (fun e => filtered_out exclude_gov exclude_quiver e = false) entries).
Proof. unfold filter_entries. by rewrite foldl_filter_entry. Qed.
End SecondLoop.

(** ** Properties of a run *)

Lemma NoDup_fmap_eq {A B : Type} (f : A -> B) (l : list A) (x y : A) :
  NoDup (f <$> l) -> x ∈ l -> y ∈ l -> f x = f y -> x = y.
Proof.
  induction l as [|z l IH].
  - by intros _ ?%elem_of_nil.
  - rewrite fmap_cons, NoDup_cons. intros [Hz Hl].
    intros [-> | Hx]%elem_of_cons [-> | Hy]%elem_of_cons Hf; [done | | |by apply IH].
    + destruct Hz. rewrite Hf. by apply list_elem_of_fmap_2.
    + destruct Hz. rewrite <- Hf. by apply list_elem_of_fmap_2.
Qed.

Section Run.
Context `{UnicodeData}.
Variables (google_news : provider) (days : Z) (exclude_gov exclude_quiver : bool).

Lemma run_articles :
  (search_jerry_moran_news google_news days exclude_gov exclude_quiver).1
  = article_of kansas_outlets <$>
      kept_entries exclude_gov exclude_quiver (merged_entries google_news days).
Proof. apply filter_entries_first_seen. Qed.

Lemma run_count :
  (search_jerry_moran_news google_news days exclude_gov exclude_quiver).2
  = length (merged_entries google_news days).
Proof. done. Qed.

Lemma merged_first_seen :
  merged_entries google_news days
  = first_seen e_link ∅ (convert <$> offered google_news days).
Proof. apply fan_out_entries. Qed.

Lemma merged_links_NoDup : NoDup (e_link <$> merged_entries google_news days).
Proof. rewrite merged_first_seen. apply first_seen_NoDup. Qed.

Lemma kept_sublist_merged :
  sublist (kept_entries exclude_gov exclude_quiver (merged_entries google_news days))
          (merged_entries google_news days).
Proof.
  etrans; [apply first_seen_sublist | apply sublist_filter].
Qed.

Lemma elem_of_kept (e : converted_entry) :
  e ∈ kept_entries exclude_gov exclude_quiver (merged_entries google_news days) ->
  e ∈ merged_entries google_news days
  /\ filtered_out exclude_gov exclude_quiver e = false.
Proof.
  intros He. eapply elem_of_sublist in He; [|apply first_seen_sublist].
  by apply list_elem_of_filter in He as [? ?].
Qed.

(** An article of the result and the merged record of the same link. *)
Lemma article_origin (a : article) (e : converted_entry) :
  a ∈ (search_jerry_moran_news google_news days exclude_gov exclude_quiver).1 ->
  e ∈ merged_entries google_news days ->
  e_link e = a_link a ->
  a = article_of kansas_outlets e
  /\ e ∈ kept_entries exclude_gov exclude_quiver (merged_entries google_news days).
Proof.
  rewrite run_articles. intros (e' & -> & He')%list_elem_of_fmap Hin Hlink.
  assert (e = e') as ->; [|done].
  apply (NoDup_fmap_eq e_link (merged_entries google_news days));
    [apply merged_links_NoDup | done | | done].
  by apply elem_of_kept.
Qed.

Lemma article_has_origin (a : article) :
  a ∈ (search_jerry_moran_news google_news days exclude_gov exclude_quiver).1 ->
  exists e, e ∈ merged_entries google_news days /\ e_link e = a_link a.
Proof.
  rewrite run_articles. intros (e & -> & He)%list_elem_of_fmap.
  exists e. split; [by apply elem_of_kept | done].
Qed.

(** C1. No two articles of a result have the same link, and no two have the
    same cleaned title (the titles are compared as they are, character by
    character). *)
Theorem result_links_and_titles_distinct :
  NoDup (a_link <$> (search_jerry_moran_news google_news days exclude_gov exclude_quiver).1)
  /\ NoDup (a_title <$> (search_jerry_moran_news google_news days exclude_gov exclude_quiver).1).
Proof.
  rewrite run_articles, <- !list_fmap_compose. split.
  - change (a_link ∘ article_of kansas_outlets) with e_link.
    apply (sublist_NoDup _ (e_link <$> merged_entries google_news days));
      [apply merged_links_NoDup | apply fmap_sublist, kept_sublist_merged].
  - change (a_title ∘ article_of kansas_outlets) with safe_title.
    apply first_seen_NoDup.
Qed.

(** C9. The number of articles returned is at most the raw total count
    returned with them. *)
Theorem result_no_longer_than_raw_count :
  (length (search_jerry_moran_news google_news days exclude_gov exclude_quiver).1
   <= (search_jerry_moran_news google_news days exclude_gov exclude_quiver).2)%nat.
Proof.
  rewrite run_articles, run_count, length_fmap.
  apply sublist_length, kept_sublist_merged.
Qed.
Lemma flat_map_nil {A B : Type} (f : A -> list B) (l : list A) :
  (forall x, x ∈ l -> f x = []) -> flat_map f l = [].
Proof.
  induction l as [|x l IH]; intros Hall; simpl; [done|].
  rewrite (Hall x) by left. apply IH. intros y Hy. apply Hall. by right.
Qed.

Lemma run_count_distinct :
  (search_jerry_moran_news google_news days exclude_gov exclude_quiver).2
  = distinct_links (offered google_news days).
Proof.
  rewrite run_count, merged_first_seen, first_seen_length, e_link_convert.
  unfold distinct_links. f_equal. set_solver.
Qed.

(** C5. The merge keeps, of the records handed over (search terms in their
    order, and within one the order of the response), the first of each link
    and nothing else, in that order; and the articles returned are made of
    merged records in the order of the merge. *)
Theorem first_seen_order_preserved :
  sublist (merged_entries google_news days) (convert <$> offered google_news days)
  /\ NoDup (e_link <$> merged_entries google_news days)
  /\ (forall l1 e l2,
        convert <$> offered google_news days = l1 ++ e :: l2 ->
        e_link e ∉ e_link <$> l1 ->
        e ∈ merged_entries google_news days)
  /\ (forall e,
        e ∈ merged_entries google_news days ->
        exists l1 l2,
          convert <$> offered google_news days = l1 ++ e :: l2
          /\ e_link e ∉ e_link <$> l1)
  /\ (exists kept,
        sublist kept (merged_entries google_news days)
        /\ (search_jerry_moran_news google_news days exclude_gov exclude_quiver).1
           = article_of kansas_outlets <$> kept
        /\ a_link <$> (search_jerry_moran_news google_news days exclude_gov exclude_quiver).1
           = e_link <$> kept).
Proof.
  split_and!.
  - rewrite merged_first_seen. apply first_seen_sublist.
  - apply merged_links_NoDup.
  - intros l1 e l2 Hsplit Hfirst. rewrite merged_first_seen, Hsplit.
    apply first_seen_first; [set_solver | done].
  - intros e. rewrite merged_first_seen. apply first_seen_only_first.
  - exists (kept_entries exclude_gov exclude_quiver (merged_entries google_news days)).
    split_and!; [apply kept_sublist_merged | apply run_articles |].
    rewrite run_articles, <- list_fmap_compose. done.
Qed.

(** C6, as the code has it. The raw total count is the length of
    [all_entries] after the merge, before any source filter or title
    comparison: the number of distinct links among all the records handed
    over, those of a search term that raised afterwards included, and
    whatever the filters drop later. *)
Theorem raw_count_is_distinct_links :
  (search_jerry_moran_news google_news days exclude_gov exclude_quiver).2
  = length (merged_entries google_news days)
  /\ (search_jerry_moran_news google_news days exclude_gov exclude_quiver).2
     = distinct_links (offered google_news days)
  /\ (search_jerry_moran_news google_news days exclude_gov exclude_quiver).2
     = (search_jerry_moran_news google_news days false false).2.
Proof. split_and!; [done | apply run_count_distinct | done]. Qed.

(** C4, as the code has it. A run always returns, and an exception changes
    nothing but the warnings: the result is that of the provider that hands
    over the same records without raising. A search term whose call raises
    hands over nothing; one that raises while its response is read keeps the
    records merged before. Every article and the raw count come from the
    records handed over, and when nothing is handed over (so when every call
    raises) the run returns no article and a raw count of zero. *)
Theorem raising_search_terms_absorbed :
  search_jerry_moran_news google_news days exclude_gov exclude_quiver
  = search_jerry_moran_news (silenced google_news) days exclude_gov exclude_quiver
  /\ warned (fan_out google_news days)
     = filter (fun search_term => raised (google_news (configure days) search_term) = true)
              search_terms
  /\ (forall a,
        a ∈ (search_jerry_moran_news google_news days exclude_gov exclude_quiver).1 ->
        exists entry, entry ∈ offered google_news days /\ entry_url entry = a_link a)
  /\ (search_jerry_moran_news google_news days exclude_gov exclude_quiver).2
     = distinct_links (offered google_news days)
  /\ ((forall search_term,
         search_term ∈ search_terms ->
         delivered (google_news (configure days) search_term) = []) ->
      search_jerry_moran_news google_news days exclude_gov exclude_quiver = ([], 0%nat)).
Proof.
  split_and!.
  - unfold search_jerry_moran_news. by rewrite !fan_out_entries.
  - apply fan_out_warned.
  - intros a (e & He & Hlink)%article_has_origin.
    rewrite merged_first_seen in He.
    eapply elem_of_sublist in He; [|apply first_seen_sublist].
    apply list_elem_of_fmap in He as (entry & -> & Hentry).
    by exists entry.
  - apply run_count_distinct.
  - intros Hnothing. unfold search_jerry_moran_news.
    rewrite fan_out_entries. unfold offered. by rewrite flat_map_nil.
Qed.
Lemma contains_false (sub s : str) :
  contains sub s = false <-> ~ substring sub s.
Proof. rewrite <- contains_spec. by destruct (contains sub s). Qed.

Lemma filtered_out_false (e : converted_entry) :
  filtered_out exclude_gov exclude_quiver e = false <->
  (exclude_gov = true -> ~ substring (lit ".gov") (e_source_title e))
  /\ (exclude_quiver = true -> ~ substring (lit "Quiver Quantitative") (e_source_title e)).
Proof.
  unfold filtered_out, excluded. rewrite <- !contains_false.
  destruct exclude_gov, exclude_quiver,
    (contains (lit ".gov") (e_source_title e)),
    (contains (lit "Quiver Quantitative") (e_source_title e)); simpl; naive_solver.
Qed.

(** C2. With [exclude_gov] no article returned comes from a record whose
    publisher name, as the provider gave it, contains ".gov", and with
    [exclude_quiver] none from one that contains "Quiver Quantitative". A
    merged record that no enabled filter catches (so any record, as to a
    filter that is disabled) is returned unless an article of another link
    has its cleaned title. *)
Theorem source_filters_exact :
  (forall a,
     a ∈ (search_jerry_moran_news google_news days exclude_gov exclude_quiver).1 ->
     exists e, e ∈ merged_entries google_news days /\ e_link e = a_link a)
  /\ (forall a e,
        a ∈ (search_jerry_moran_news google_news days exclude_gov exclude_quiver).1 ->
        e ∈ merged_entries google_news days ->
        e_link e = a_link a ->
        (exclude_gov = true -> ~ substring (lit ".gov") (e_source_title e))
        /\ (exclude_quiver = true ->
            ~ substring (lit "Quiver Quantitative") (e_source_title e)))
  /\ (forall e,
        e ∈ merged_entries google_news days ->
        (exclude_gov = true -> ~ substring (lit ".gov") (e_source_title e)) ->
        (exclude_quiver = true ->
         ~ substring (lit "Quiver Quantitative") (e_source_title e)) ->
        article_of kansas_outlets e
          ∈ (search_jerry_moran_news google_news days exclude_gov exclude_quiver).1
        \/ exists a,
             a ∈ (search_jerry_moran_news google_news days exclude_gov exclude_quiver).1
             /\ a_title a = safe_title e /\ a_link a <> e_link e).
Proof.
  split_and!.
  - apply article_has_origin.
  - intros a e Ha He Hlink.
    destruct (article_origin a e Ha He Hlink) as [_ Hkept].
    apply elem_of_kept in Hkept as [_ Hpass]. by apply filtered_out_false.
  - intros e He Hgov Hquiver.
    assert (filtered_out exclude_gov exclude_quiver e = false) as Hpass
      by by apply filtered_out_false.
    assert (e ∈ passing_entries exclude_gov exclude_quiver (merged_entries google_news days))
      as Hin by by apply list_elem_of_filter.
    apply (first_seen_covers safe_title ∅) in Hin; [|set_solver].
    apply list_elem_of_fmap in Hin as (e' & Htitle & He').
    rewrite run_articles.
    destruct (decide (e_link e' = e_link e)) as [Hlink | Hlink].
    + left. assert (e' = e) as <-; [|by apply list_elem_of_fmap_2].
      apply (NoDup_fmap_eq e_link (merged_entries google_news days));
        [apply merged_links_NoDup | by apply elem_of_kept | done | done].
    + right. exists (article_of kansas_outlets e').
      split_and!; [by apply list_elem_of_fmap_2 | done | done].
Qed.

(** C7. The regional flag of an article returned is true exactly when some
    entry of [kansas_outlets] occurs in the publisher name as the provider
    gave it; and the list decides nothing else: with any other list the same
    articles are returned, flags apart. *)
Theorem regional_flag_iff_outlet_substring :
  (forall a,
     a ∈ (search_jerry_moran_news google_news days exclude_gov exclude_quiver).1 ->
     exists e, e ∈ merged_entries google_news days /\ e_link e = a_link a)
  /\ (forall a e,
        a ∈ (search_jerry_moran_news google_news days exclude_gov exclude_quiver).1 ->
        e ∈ merged_entries google_news days ->
        e_link e = a_link a ->
        (a_is_kansas a = true <->
         exists outlet, outlet ∈ kansas_outlets /\ substring outlet (e_source_title e)))
  /\ (forall outlets,
        unflagged <$> filter_entries outlets exclude_gov exclude_quiver
                        (merged_entries google_news days)
        = unflagged <$> (search_jerry_moran_news google_news days exclude_gov exclude_quiver).1).
Proof.
  split_and!.
  - apply article_has_origin.
  - intros a e Ha He Hlink.
    destruct (article_origin a e Ha He Hlink) as [-> _].
    unfold article_of; cbn [a_is_kansas].
    rewrite existsb_exists. setoid_rewrite contains_spec.
    by setoid_rewrite <- list_elem_of_In.
  - intros outlets. rewrite run_articles, filter_entries_first_seen.
    by rewrite <- !list_fmap_compose.
Qed.

Lemma final_seen_titles_kept (outlets : list str) (entries : list converted_entry) :
  final_seen_titles outlets exclude_gov exclude_quiver entries
  = list_to_set (a_title <$> filter_entries outlets exclude_gov exclude_quiver entries).
Proof.
  unfold final_seen_titles. rewrite filter_entries_first_seen, foldl_filter_entry. simpl.
  rewrite <- list_fmap_compose.
  change (a_title ∘ article_of outlets) with safe_title.
  rewrite first_seen_keys. set_solver.
Qed.

Lemma filter_entries_skip (outlets : list str) (l1 l2 : list converted_entry)
    (d : converted_entry) :
  filtered_out exclude_gov exclude_quiver d = true ->
  filter_entries outlets exclude_gov exclude_quiver (l1 ++ d :: l2)
  = filter_entries outlets exclude_gov exclude_quiver (l1 ++ l2).
Proof.
  intros Hd. rewrite !filter_entries_first_seen, !filter_app.
  by rewrite filter_cons_False by congruence.
Qed.

(** C10. The source filters come before the comparison of titles: a record
    that a filter drops leaves no trace, the result is what it would be
    without the record and the titles seen are those of the articles kept.
    So a later record that passes the filters is returned when no record
    before it that passes them has its cleaned title, whatever the title of
    the dropped record. *)
Theorem filtered_records_leave_no_title (l1 l2 l3 : list converted_entry)
    (d e : converted_entry) :
  merged_entries google_news days = l1 ++ d :: l2 ++ e :: l3 ->
  filtered_out exclude_gov exclude_quiver d = true ->
  filtered_out exclude_gov exclude_quiver e = false ->
  (forall x, x ∈ l1 ++ l2 ->
             filtered_out exclude_gov exclude_quiver x = false ->
             safe_title x <> safe_title e) ->
  article_of kansas_outlets e
    ∈ (search_jerry_moran_news google_news days exclude_gov exclude_quiver).1
  /\ (search_jerry_moran_news google_news days exclude_gov exclude_quiver).1
     = filter_entries kansas_outlets exclude_gov exclude_quiver (l1 ++ l2 ++ e :: l3)
  /\ final_seen_titles kansas_outlets exclude_gov exclude_quiver
       (merged_entries google_news days)
     = list_to_set
         (a_title <$> (search_jerry_moran_news google_news days exclude_gov exclude_quiver).1).
Proof.
  intros Hsplit Hd He Hfree.
  assert ((search_jerry_moran_news google_news days exclude_gov exclude_quiver).1
          = filter_entries kansas_outlets exclude_gov exclude_quiver (l1 ++ l2 ++ e :: l3))
    as Hres.
  { unfold search_jerry_moran_news. simpl. fold (merged_entries google_news days).
    rewrite Hsplit. by apply filter_entries_skip. }
  split_and!; [|done|apply final_seen_titles_kept].
  rewrite Hres, filter_entries_first_seen, app_assoc, filter_app.
  rewrite filter_cons_True by done.
  apply list_elem_of_fmap_2, first_seen_first; [set_solver|].
  intros (x & Htitle & Hx)%list_elem_of_fmap.
  apply list_elem_of_filter in Hx as [Hpass Hx].
  by apply (Hfree x).
Qed.
Lemma in_kept_class_spec (c : N) :
  in_kept_class c = true <->
  isalnum c = true \/ c = 95 \/ isspace c = true \/ c ∈ kept_punctuation.
Proof.
  unfold in_kept_class, re_word.
  rewrite !orb_true_iff, bool_decide_eq_true, N.eqb_eq. tauto.
Qed.

Lemma replace_absent (title old : str) :
  ~ substring old title -> replace title old [] = title.
Proof.
  intros Habsent%contains_false. destruct old as [|x old].
  - by destruct title.
  - by apply replace_scan_absent.
Qed.

Lemma replace_occurrence (media pre post : str) :
  let old := lit " - " ++ media in
  ~ substring old (pre ++ take (length old - 1) old) ->
  replace (pre ++ old ++ post) old [] = pre ++ replace post old [].
Proof.
  intros old Hearlier%contains_false.
  change (replace (pre ++ old ++ post) old [])
    with (replace_scan old [] (pre ++ old ++ post)).
  by rewrite replace_scan_occurrence.
Qed.

(** C3, as the code has it. The title and the publisher name of an article
    are the cleaned title and the cleaned publisher name of its merged
    record. The cleaned title of a merged record is made of its title by
    removing every occurrence of
    [" - " ++ publisher], the publisher name being the one the provider
    gave, found from left to right wherever it stands in the title; then by
    deleting every character that is neither alphanumeric, nor the
    underscore, nor white space, nor one of - . , : ; ! ? ( ) ' and the
    double quote; then by trimming white space at both ends. The cleaned
    publisher name is made the same way without the removal. *)
Theorem cleaned_title_and_publisher :
  (forall a,
     a ∈ (search_jerry_moran_news google_news days exclude_gov exclude_quiver).1 ->
     exists e, e ∈ merged_entries google_news days /\ e_link e = a_link a)
  /\ (forall a e,
        a ∈ (search_jerry_moran_news google_news days exclude_gov exclude_quiver).1 ->
        e ∈ merged_entries google_news days ->
        e_link e = a_link a ->
        a_title a = safe_title e /\ a_media a = clean_text (e_source_title e))
  /\ (forall e,
        safe_title e
        = strip (filter (fun c => in_kept_class c = true)
                        (replace (e_title e) (lit " - " ++ e_source_title e) [])))
  /\ (forall text,
        clean_text text = strip (filter (fun c => in_kept_class c = true) text))
  /\ (forall c,
        in_kept_class c = true <->
        isalnum c = true \/ c = 95 \/ isspace c = true \/ c ∈ kept_punctuation)
  /\ (forall title media,
        ~ substring (lit " - " ++ media) title ->
        replace title (lit " - " ++ media) [] = title)
  /\ (forall media pre post,
        ~ substring (lit " - " ++ media)
            (pre ++ take (length (lit " - " ++ media) - 1) (lit " - " ++ media)) ->
        replace (pre ++ (lit " - " ++ media) ++ post) (lit " - " ++ media) []
        = pre ++ replace post (lit " - " ++ media) []).
Proof.
  split_and!.
  - apply article_has_origin.
  - intros a e Ha He Hlink.
    by destruct (article_origin a e Ha He Hlink) as [-> _].
  - intros e. apply clean_text_filter.
  - apply clean_text_filter.
  - apply in_kept_class_spec.
  - intros title media. apply replace_absent.
  - intros media pre post. apply replace_occurrence.
Qed.
End Run.

(** ** More on [clean_text] *)

Lemma sublist_same_length {A : Type} (l1 l2 : list A) :
  sublist l1 l2 -> (length l2 <= length l1)%nat -> l1 = l2.
Proof.
  induction 1 as [|x l1 l2 Hsub IH|x l1 l2 Hsub IH]; simpl; intros Hlen.
  - done.
  - f_equal. apply IH. lia.
  - apply sublist_length in Hsub. lia.
Qed.

Section MoreCleaning.
Context `{UnicodeData}.

Lemma lstrip_nil (s : str) :
  lstrip s = [] <-> forall c, c ∈ s -> isspace c = true.
Proof.
  induction s as [|c s IH]; simpl.
  - split; [intros _ c Hc; by apply elem_of_nil in Hc | done].
  - destruct (isspace c) eqn:Hc.
    + rewrite IH. split.
      * intros Hall c' [-> | Hc']%elem_of_cons; [done | by apply Hall].
      * intros Hall c' Hc'. apply Hall. by right.
    + split; [done|]. intros Hall. rewrite Hall in Hc by left. done.
Qed.

Lemma strip_nil (s : str) :
  strip s = [] <-> forall c, c ∈ s -> isspace c = true.
Proof.
  rewrite <- lstrip_nil. unfold strip, rstrip. split.
  - intros Hnil. apply (f_equal reverse) in Hnil.
    rewrite reverse_involutive, reverse_nil in Hnil.
    pose proof (lstrip_no_lead s) as Hlead.
    destruct (lstrip s) as [|c rest] eqn:Hs; [done|]. exfalso.
    pose proof (proj1 (lstrip_nil _) Hnil) as Hall. simpl in Hlead.
    rewrite Hall in Hlead; [done|]. rewrite elem_of_reverse. left.
  - intros ->. done.
Qed.

Lemma strip_sublist (s : str) : sublist (strip s) s.
Proof.
  destruct (strip_infix s) as (pre & post & Hs). rewrite Hs at 2.
  apply sublist_inserts_l, sublist_inserts_r. done.
Qed.

Lemma clean_text_sublist (text : str) : sublist (clean_text text) text.
Proof.
  rewrite clean_text_filter. etrans; [apply strip_sublist | apply sublist_filter].
Qed.

Lemma markup_not_kept (c : N) : c ∈ markup_characters -> in_kept_class c = false.
Proof.
  unfold markup_characters. intros Hc.
  repeat (apply elem_of_cons in Hc as [-> | Hc]; [reflexivity|]).
  by apply elem_of_nil in Hc.
Qed.

(** X1. A cleaned text is made of characters of the text, all of the class
    the pattern spares; none of the markup characters is left in it. *)
Theorem clean_text_only_kept_characters (text : str) :
  Forall (fun c => c ∈ text /\ in_kept_class c = true) (clean_text text)
  /\ Forall (fun c => c ∉ clean_text text) markup_characters.
Proof.
  split; apply Forall_forall.
  - intros c Hc. split; [|by apply clean_text_kept in Hc].
    by apply (elem_of_sublist _ _ _ Hc), clean_text_sublist.
  - intros c Hmarkup Hc. apply clean_text_kept in Hc.
    apply markup_not_kept in Hmarkup. congruence.
Qed.

(** X2. A cleaned text neither starts nor ends with white space. *)
Theorem clean_text_trimmed (text : str) :
  (forall c rest, clean_text text = c :: rest -> isspace c = false)
  /\ (forall front c, clean_text text = front ++ [c] -> isspace c = false).
Proof.
  unfold clean_text. split.
  - intros c rest Hhead.
    pose proof (strip_no_lead (re_sub_runs (fun c => negb (in_kept_class c)) text)) as Hlead.
    by rewrite Hhead in Hlead.
  - intros front c Hlast.
    pose proof (strip_no_trail (re_sub_runs (fun c => negb (in_kept_class c)) text)) as Htrail.
    by rewrite Hlast, reverse_snoc in Htrail.
Qed.

(** X3. The texts that cleaning leaves as they are: those made of spared
    characters only, with no white space at either end. *)
Theorem clean_text_fixed_points (text : str) :
  clean_text text = text <->
  (forall c, c ∈ text -> in_kept_class c = true)
  /\ no_lead text /\ no_lead (reverse text).
Proof.
  split.
  - intros Hfix. split_and!.
    + intros c Hc. rewrite <- Hfix in Hc. by apply clean_text_kept in Hc.
    + rewrite <- Hfix. apply strip_no_lead.
    + rewrite <- Hfix. apply strip_no_trail.
  - intros (Hkept & Hlead & Htrail).
    rewrite clean_text_filter, filter_all by done. by apply strip_fixed.
Qed.

(** X4. Cleaning only deletes: the cleaned text is a subsequence of the
    text, no longer than it, and as long only when nothing was deleted. *)
Theorem clean_text_subsequence (text : str) :
  sublist (clean_text text) text
  /\ (length (clean_text text) <= length text)%nat
  /\ (length (clean_text text) = length text <-> clean_text text = text).
Proof.
  split_and!.
  - apply clean_text_sublist.
  - apply sublist_length, clean_text_sublist.
  - split; [|by intros ->].
    intros Hlen. apply sublist_same_length; [apply clean_text_sublist | lia].
Qed.

(** X5. The cleaned text is empty exactly when every spared character of
    the text is white space: the empty text, a blank one, one made of
    deleted characters. *)
Theorem clean_text_empty_iff_blank (text : str) :
  clean_text text = [] <->
  forall c, c ∈ text -> in_kept_class c = true -> isspace c = true.
Proof.
  rewrite clean_text_filter, strip_nil. split.
  - intros Hall c Hc Hkept. apply Hall. by apply list_elem_of_filter.
  - intros Hall c [Hkept Hc]%list_elem_of_filter. by apply Hall.
Qed.
End MoreCleaning.

(** ** More on a run *)

Section FirstSeenMore.
Context {A : Type} (key : A -> str).

Lemma first_seen_all_seen (seen : gset str) (l : list A) :
  first_seen key seen l = [] <-> forall x, x ∈ l -> key x ∈ seen.
Proof.
  revert seen; induction l as [|x l IH]; intros seen; simpl.
  - split; [intros _ x Hx; by apply elem_of_nil in Hx | done].
  - case_decide as Hx.
    + rewrite IH. split.
      * intros Hall y [-> | Hy]%elem_of_cons; [done | by apply Hall].
      * intros Hall y Hy. apply Hall. by right.
    + split; [done|]. intros Hall. destruct Hx. apply Hall. left.
Qed.

Lemma first_seen_unchanged (seen : gset str) (l : list A) :
  first_seen key seen l = l <->
  NoDup (key <$> l) /\ forall x, x ∈ l -> key x ∉ seen.
Proof.
  split.
  - intros Hsame. split.
    + rewrite <- Hsame. apply first_seen_NoDup.
    + intros x Hx. rewrite <- Hsame in Hx. by apply first_seen_fresh in Hx.
  - revert seen; induction l as [|x l IH]; intros seen [Hdup Hfresh]; simpl; [done|].
    rewrite fmap_cons, NoDup_cons in Hdup. destruct Hdup as [Hx Hdup].
    rewrite decide_False by (apply Hfresh; left). f_equal.
    apply IH. split; [done|]. intros y Hy.
    assert (key y ∉ seen) by (apply Hfresh; by right).
    assert (key y <> key x) by (intros Heq; apply Hx; rewrite <- Heq; by apply list_elem_of_fmap_2).
    set_solver.
Qed.
End FirstSeenMore.

Lemma filter_nil_iff {A : Type} (P : A -> Prop) `{!forall x, Decision (P x)} (l : list A) :
  filter P l = [] <-> forall x, x ∈ l -> ~ P x.
Proof.
  induction l as [|x l IH].
  - split; [intros _ x Hx; by apply elem_of_nil in Hx | done].
  - rewrite filter_cons. case_decide as Hx.
    + split; [done|]. intros Hall. destruct (Hall x); [left | done].
    + rewrite IH. split.
      * intros Hall y [-> | Hy]%elem_of_cons; [done | by apply Hall].
      * intros Hall y Hy. apply Hall. by right.
Qed.

Lemma length_flat_map_le {A B : Type} (f : A -> list B) (l : list A) (k : nat) :
  (forall x, x ∈ l -> (length (f x) <= k)%nat) ->
  (length (flat_map f l) <= length l * k)%nat.
Proof.
  induction l as [|x l IH]; intros Hall; simpl; [lia|].
  rewrite length_app.
  assert (length (f x) <= k)%nat by (apply Hall; left).
  assert (length (flat_map f l) <= length l * k)%nat
    by (apply IH; intros y Hy; apply Hall; by right).
  lia.
Qed.

Section MoreRun.
Context `{UnicodeData}.
Variables (google_news : provider) (days : Z) (exclude_gov exclude_quiver : bool).

Lemma clean_text_again (text : str) : clean_text (clean_text text) = clean_text text.
Proof.
  rewrite (clean_text_filter (clean_text text)).
  rewrite filter_all by (intros c Hc; by apply clean_text_kept in Hc).
  rewrite clean_text_filter. apply strip_idempotent.
Qed.


Lemma run_titles_iff (title : str) :
  title ∈ a_title <$> (search_jerry_moran_news google_news days exclude_gov exclude_quiver).1
  <-> exists e, e ∈ merged_entries google_news days
                /\ filtered_out exclude_gov exclude_quiver e = false
                /\ safe_title e = title.
Proof.
  rewrite run_articles, <- list_fmap_compose.
  change (a_title ∘ article_of kansas_outlets) with safe_title. split.
  - intros (e & -> & He)%list_elem_of_fmap. exists e.
    apply elem_of_kept in He as [? ?]. done.
  - intros (e & He & Hpass & <-).
    apply first_seen_covers; [by apply list_elem_of_filter | set_solver].
Qed.

Lemma run_length_titles :
  length (search_jerry_moran_news google_news days exclude_gov exclude_quiver).1
  = size (list_to_set
            (a_title <$> (search_jerry_moran_news google_news days exclude_gov exclude_quiver).1)
          : gset str).
Proof.
  rewrite size_list_to_set, length_fmap; [done|].
  rewrite run_articles, <- list_fmap_compose. apply first_seen_NoDup.
Qed.
End MoreRun.

Section MoreRunTheorems.
Context `{UnicodeData}.
Variables (google_news : provider) (days : Z) (exclude_gov exclude_quiver : bool).

Lemma filtered_out_more (more_gov more_quiver : bool) (e : converted_entry) :
  filtered_out (exclude_gov || more_gov) (exclude_quiver || more_quiver) e = false ->
  filtered_out exclude_gov exclude_quiver e = false.
Proof.
  unfold filtered_out, excluded.
  destruct exclude_gov, exclude_quiver, more_gov, more_quiver,
    (contains (lit ".gov") (e_source_title e)),
    (contains (lit "Quiver Quantitative") (e_source_title e)); done.
Qed.

(** X6. Switching on more filters brings no new title into the result and
    never makes it longer. (It can bring in a new link: see C10.) *)
Theorem more_filters_no_new_title (more_gov more_quiver : bool) :
  (forall title,
     title ∈ a_title <$> (search_jerry_moran_news google_news days
                            (exclude_gov || more_gov) (exclude_quiver || more_quiver)).1 ->
     title ∈ a_title <$> (search_jerry_moran_news google_news days
                            exclude_gov exclude_quiver).1)
  /\ (length (search_jerry_moran_news google_news days
                (exclude_gov || more_gov) (exclude_quiver || more_quiver)).1
      <= length (search_jerry_moran_news google_news days exclude_gov exclude_quiver).1)%nat.
Proof.
  assert (forall title,
     title ∈ a_title <$> (search_jerry_moran_news google_news days
                            (exclude_gov || more_gov) (exclude_quiver || more_quiver)).1 ->
     title ∈ a_title <$> (search_jerry_moran_news google_news days
                            exclude_gov exclude_quiver).1) as Htitles.
  { intros title (e & He & Hpass & Htitle)%run_titles_iff.
    apply run_titles_iff. exists e. split_and!; [done | | done].
    by apply (filtered_out_more more_gov more_quiver). }
  split; [done|].
  rewrite !run_length_titles. apply subseteq_size.
  intros title. rewrite !elem_of_list_to_set. apply Htitles.
Qed.

(** X7. When the search terms behind the first bring no link that the first
    did not bring, the records merged are those of the first response, the
    first of each link, and the raw count is its number of distinct links. *)
Theorem later_terms_without_new_links :
  (forall search_term entry,
     search_term ∈ search_terms ->
     entry ∈ delivered (google_news (configure days) search_term) ->
     entry_url entry
       ∈ entry_url <$> delivered (google_news (configure days) (lit "Jerry Moran"))) ->
  merged_entries google_news days
  = first_seen e_link ∅
      (convert <$> delivered (google_news (configure days) (lit "Jerry Moran")))
  /\ (search_jerry_moran_news google_news days exclude_gov exclude_quiver).2
     = distinct_links (delivered (google_news (configure days) (lit "Jerry Moran"))).
Proof.
  intros Hold.
  assert (merged_entries google_news days
          = first_seen e_link ∅
              (convert <$> delivered (google_news (configure days) (lit "Jerry Moran"))))
    as Hmerged.
  { rewrite merged_first_seen.
    assert (offered google_news days
            = delivered (google_news (configure days) (lit "Jerry Moran"))
              ++ flat_map (fun search_term =>
                             delivered (google_news (configure days) search_term))
                          (tail search_terms)) as -> by reflexivity.
    rewrite fmap_app, first_seen_app.
    match goal with |- _ ++ ?rest = _ => assert (rest = []) as -> end;
      [|by rewrite app_nil_r].
    apply first_seen_all_seen. intros e (entry & -> & Hentry)%list_elem_of_fmap.
    apply list_elem_of_In in Hentry.
    apply in_flat_map in Hentry as (search_term & Hterm & Hentry).
    apply list_elem_of_In in Hterm. apply list_elem_of_In in Hentry.
    rewrite e_link_convert, elem_of_union, elem_of_list_to_set. right.
    apply (Hold search_term); [|done].
    unfold search_terms. right. exact Hterm. }
  split; [done|].
  rewrite run_count, Hmerged, first_seen_length, e_link_convert.
  unfold distinct_links. f_equal. set_solver.
Qed.

(** X8. The merge drops nothing exactly when the links handed over are
    pairwise distinct; only then is the raw count the number of records
    handed over. *)
Theorem nothing_merged_away_iff_links_distinct :
  (merged_entries google_news days = convert <$> offered google_news days
   <-> NoDup (entry_url <$> offered google_news days))
  /\ ((search_jerry_moran_news google_news days exclude_gov exclude_quiver).2
      = length (offered google_news days)
      <-> NoDup (entry_url <$> offered google_news days)).
Proof.
  assert (merged_entries google_news days = convert <$> offered google_news days
          <-> NoDup (entry_url <$> offered google_news days)) as Hsame.
  { rewrite merged_first_seen, first_seen_unchanged, e_link_convert. split.
    - by intros [? _].
    - intros Hdup. split; [done | set_solver]. }
  split; [done|]. rewrite <- Hsame, run_count. split.
  - intros Hlen. apply sublist_same_length.
    + rewrite merged_first_seen. apply first_seen_sublist.
    + rewrite length_fmap. lia.
  - intros ->. by rewrite length_fmap.
Qed.

(** X9. When no response is longer than the number of results asked of
    the provider (line 56), the raw count and the number of articles are at
    most seven hundred. *)
Theorem raw_count_within_cap :
  (forall search_term,
     search_term ∈ search_terms ->
     (Z.of_nat (length (delivered (google_news (configure days) search_term)))
      <= results (configure days))%Z) ->
  ((search_jerry_moran_news google_news days exclude_gov exclude_quiver).2 <= 700)%nat
  /\ (length (search_jerry_moran_news google_news days exclude_gov exclude_quiver).1
      <= 700)%nat.
Proof.
  intros Hcap.
  assert ((search_jerry_moran_news google_news days exclude_gov exclude_quiver).2 <= 700)%nat
    as Hcount.
  { rewrite run_count, merged_first_seen.
    etrans; [apply sublist_length, first_seen_sublist|].
    rewrite length_fmap. unfold offered.
    etrans; [apply (length_flat_map_le _ _ 100)|].
    - intros search_term Hterm. specialize (Hcap search_term Hterm).
      simpl in Hcap. lia.
    - done. }
  split; [done|].
  etrans; [|exact Hcount].
  rewrite run_articles, run_count, length_fmap.
  apply sublist_length, kept_sublist_merged.
Qed.

(** X10. The title and the publisher name of every article returned are
    cleaned texts: cleaning them again changes nothing, and they hold none
    of the markup characters. *)
Theorem returned_articles_displayable :
  Forall (fun a =>
            displayable a
            /\ Forall (fun c => (c ∉ a_title a) /\ (c ∉ a_media a)) markup_characters)
         (search_jerry_moran_news google_news days exclude_gov exclude_quiver).1.
Proof.
  apply Forall_forall. intros a Ha.
  rewrite run_articles in Ha. apply list_elem_of_fmap in Ha as (e & -> & _).
  unfold displayable, article_of, safe_title, safe_title_of; cbn [a_title a_media].
  split; [split; apply clean_text_again|].
  apply Forall_forall. intros c Hc. apply markup_not_kept in Hc.
  split; intros Hin%clean_text_kept; congruence.
Qed.
End MoreRunTheorems.

(** ** The page *)

Lemma foldl_append {A : Type} (line : A -> str) (start : str) (l : list A) :
  foldl (fun content x => content ++ line x) start l = start ++ mjoin (line <$> l).
Proof.
  revert start; induction l as [|x l IH]; intros start; simpl.
  - by rewrite app_nil_r.
  - by rewrite IH, <- app_assoc.
Qed.

Lemma app_cons_first_eq {A : Type} (c : A) (p1 r1 p2 r2 : list A) :
  c ∉ p1 -> c ∉ p2 -> p1 ++ c :: r1 = p2 ++ c :: r2 -> p1 = p2 /\ r1 = r2.
Proof.
  revert p2; induction p1 as [|x p1 IH]; intros [|y p2] Hp1 Hp2 Heq; simpl in Heq.
  - by injection Heq.
  - injection Heq as -> _. destruct Hp2. left.
  - injection Heq as -> _. destruct Hp1. left.
  - injection Heq as -> Heq. rewrite not_elem_of_cons in Hp1, Hp2.
    destruct (IH p2) as [-> ->]; [tauto | tauto | done | done].
Qed.

Lemma kansas_count_length (results : list article) :
  kansas_count results = length (filter (fun r => a_is_kansas r = true) results).
Proof. unfold kansas_count. rewrite sum_list_fmap_const. lia. Qed.

Lemma kansas_count_positive (results : list article) :
  (0 < kansas_count results)%nat <-> exists a, a ∈ results /\ a_is_kansas a = true.
Proof.
  rewrite kansas_count_length. split.
  - destruct (filter _ results) as [|a rest] eqn:Hfilter; simpl; [lia|]. intros _.
    assert (a ∈ filter (fun r => a_is_kansas r = true) results) as Ha
      by (rewrite Hfilter; left).
    apply list_elem_of_filter in Ha as [? ?]. by exists a.
  - intros (a & Ha & Hflag).
    assert (a ∈ filter (fun r => a_is_kansas r = true) results) as Hin
      by by apply list_elem_of_filter.
    destruct (filter _ results); [by apply elem_of_nil in Hin | simpl; lia].
Qed.

(** The widgets of a page that has articles, by kind. *)
Lemma show_results_widgets (now : clock) (days : Z) (results : list article)
    (total_found : nat) (w : widget) :
  results <> [] ->
  w ∈ show_results now days results total_found ->
  (exists body, w = st_success body)
  \/ ((0 < kansas_count results)%nat /\ exists body, w = st_info body)
  \/ (exists body, w = st_markdown body)
  \/ (exists label content, w = st_expander label content)
  \/ (exists label data file_name mime, w = st_download_button label data file_name mime).
Proof.
  destruct results as [|a rest]; [done|]. intros _. unfold show_results.
  rewrite !elem_of_app. intros [Hw | [Hw | [Hw | [Hw | Hw]]]].
  - apply list_elem_of_singleton in Hw. eauto.
  - case_decide; [|by apply elem_of_nil in Hw].
    apply list_elem_of_singleton in Hw. eauto 10.
  - apply list_elem_of_singleton in Hw. eauto 10.
  - apply elem_of_lookup_imap in Hw as (i & x & -> & _). eauto 10.
  - apply elem_of_cons in Hw as [-> | Hw]; [eauto 10|].
    apply list_elem_of_singleton in Hw. eauto 10.
Qed.

Section Page.
Context `{UnicodeData}.

Lemma displayable_kept (a : article) (c : N) :
  displayable a ->
  (c ∈ a_title a -> in_kept_class c = true)
  /\ (c ∈ a_media a -> in_kept_class c = true).
Proof.
  intros [Htitle Hmedia]. split.
  - rewrite <- Htitle. apply clean_text_kept.
  - rewrite <- Hmedia. apply clean_text_kept.
Qed.

Lemma displayable_without (a : article) (c : N) :
  displayable a -> in_kept_class c = false -> (c ∉ a_title a) /\ (c ∉ a_media a).
Proof.
  intros Ha Hc. destruct (displayable_kept a c Ha) as [Htitle Hmedia].
  split; intros Hin; [apply Htitle in Hin | apply Hmedia in Hin]; congruence.
Qed.

(** The star in front of a publisher name is the marker, never the start of
    the name. *)
Lemma indicator_media_inj (a b : article) (ra rb : str) :
  displayable a -> displayable b ->
  kansas_indicator a ++ a_media a ++ lit ":" ++ ra
  = kansas_indicator b ++ a_media b ++ lit ":" ++ rb ->
  a_is_kansas a = a_is_kansas b.
Proof.
  intros Ha Hb.
  destruct (displayable_without a 42 Ha eq_refl) as [_ Hstar_a].
  destruct (displayable_without b 42 Hb eq_refl) as [_ Hstar_b].
  unfold kansas_indicator.
  destruct (a_is_kansas a), (a_is_kansas b); [done | | | done]; simpl.
  - destruct (a_media b) as [|c m]; simpl; [done|].
    intros Heq. injection Heq as <- _. destruct Hstar_b. left.
  - destruct (a_media a) as [|c m]; simpl; [done|].
    intros Heq. injection Heq as -> _. destruct Hstar_a. left.
Qed.


(** X13. The line of the Markdown download tells the regional flag, the
    publisher name, the title and the link of its article, when the
    publisher name and the title are cleaned texts. *)
Theorem markdown_line_determines_article (a b : article) :
  displayable a -> displayable b ->
  markdown_line a = markdown_line b ->
  a_is_kansas a = a_is_kansas b /\ a_media a = a_media b
  /\ a_title a = a_title b /\ a_link a = a_link b.
Proof.
  intros Ha Hb Hline. unfold markdown_line in Hline.
  apply app_inv_head in Hline.
  assert (a_is_kansas a = a_is_kansas b) as Hflag.
  { apply (indicator_media_inj a b
             (lit " [" ++ a_title a ++ lit "](" ++ a_link a ++ lit ")" ++ [10])
             (lit " [" ++ a_title b ++ lit "](" ++ a_link b ++ lit ")" ++ [10]));
      [done | done | exact Hline]. }
  unfold kansas_indicator in Hline. rewrite Hflag in Hline.
  apply app_inv_head in Hline.
  destruct (displayable_without a 91 Ha eq_refl) as [_ Hopen_a].
  destruct (displayable_without b 91 Hb eq_refl) as [_ Hopen_b].
  destruct (displayable_without a 93 Ha eq_refl) as [Hclose_a _].
  destruct (displayable_without b 93 Hb eq_refl) as [Hclose_b _].
  change (lit ": [" ++ ?t) with (lit ": " ++ 91 :: t) in Hline.
  rewrite !(app_assoc _ (lit ": ")) in Hline.
  apply app_cons_first_eq in Hline as [Hmedia Hline];
    [| rewrite elem_of_app; intros [? | Hin]; [done | vm_compute in Hin; set_solver] ..].
  apply app_inv_tail in Hmedia.
  change (lit "](" ++ ?t) with (93 :: lit "(" ++ t) in Hline.
  apply app_cons_first_eq in Hline as [Htitle Hline]; [|done ..].
  apply app_inv_head in Hline.
  apply app_inv_tail in Hline. done.
Qed.

(** X16. In both downloads the star stands in front of the publisher name
    exactly for the articles with the regional flag, when the publisher
    name is a cleaned text. *)
Theorem star_marks_kansas (a : article) :
  displayable a ->
  startswith (text_line a) (lit "*") = a_is_kansas a
  /\ startswith (markdown_line a) (lit "- *") = a_is_kansas a.
Proof.
  intros Ha. destruct (displayable_without a 42 Ha eq_refl) as [_ Hstar].
  unfold text_line, markdown_line, kansas_indicator.
  destruct (a_is_kansas a); [split; reflexivity|].
  destruct (a_media a) as [|c m]; [split; reflexivity|].
  assert (c ≠ 42) as Hc by (intros ->; destruct Hstar; left).
  split; apply not_true_is_false; intros [t Ht]%startswith_spec.
  - change (lit "*") with [42] in Ht. simpl in Ht.
    injection Ht as Ht _. congruence.
  - change (lit "- *") with [45; 32; 42] in Ht.
    change (lit "- ") with [45; 32] in Ht. simpl in Ht.
    injection Ht as Ht _. congruence.
Qed.
End Page.

(** X12. The count of regional articles is the number of flagged articles,
    and the page says it exactly when some article is flagged. *)
Theorem kansas_info_iff_flagged (now : clock) (days : Z) (results : list article)
    (total_found : nat) :
  kansas_count results = length (filter (fun r => a_is_kansas r = true) results)
  /\ (kansas_count results <= length results)%nat
  /\ ((exists body, st_info body ∈ show_results now days results total_found)
      <-> exists a, a ∈ results /\ a_is_kansas a = true).
Proof.
  split_and!.
  - apply kansas_count_length.
  - rewrite kansas_count_length. apply sublist_length, sublist_filter.
  - rewrite <- kansas_count_positive. split.
    + intros [body Hw]. destruct results as [|a rest].
      * simpl in Hw. apply list_elem_of_singleton in Hw. discriminate.
      * apply show_results_widgets in Hw; [|done]. naive_solver.
    + intros Hpos. destruct results as [|a rest].
      * unfold kansas_count in Hpos. simpl in Hpos. lia.
      * eexists. unfold show_results. rewrite decide_True by done.
        rewrite !elem_of_app. right. left. left.
Qed.

(** X14. The text download does not tell the publisher name from the
    title: a colon and a space inside either of them read like the
    separator the line puts between them. *)
Theorem text_line_joins_publisher_and_title
    (flag : bool) (media title rest link published published' : str) :
  text_line {| a_title := title ++ lit ": " ++ rest; a_media := media;
               a_link := link; a_is_kansas := flag; a_published := published |}
  = text_line {| a_title := rest; a_media := media ++ lit ": " ++ title;
                 a_link := link; a_is_kansas := flag; a_published := published' |}.
Proof. unfold text_line, kansas_indicator. cbn [a_title a_media a_link a_is_kansas]. by rewrite <- !app_assoc. Qed.

(** X15. Both downloads list the articles in the order of the result, one
    after the other behind the heading, each with its own line. *)
Theorem downloads_list_articles_in_order (stamp : str) (days : Z)
    (before after : list article) (a : article) :
  markdown_content stamp days (before ++ a :: after)
  = markdown_content stamp days before ++ markdown_line a ++ mjoin (markdown_line <$> after)
  /\ text_content (before ++ a :: after)
     = text_content before ++ text_line a ++ mjoin (text_line <$> after).
Proof.
  unfold markdown_content, text_content.
  rewrite !foldl_app. cbn [foldl]. by rewrite !foldl_append, <- !app_assoc.
Qed.

(** ** The regional flag and the publisher name shown *)

Section FlagAndName.
Context `{UnicodeData}.

Lemma lstrip_app_nonspace (p : str) (c : N) (r : str) :
  isspace c = false -> lstrip (p ++ c :: r) = lstrip p ++ c :: r.
Proof.
  intros Hc. induction p as [|x p IH]; simpl.
  - by rewrite Hc.
  - by destruct (isspace x).
Qed.

Lemma rstrip_app_nonspace (x q : str) :
  x <> [] -> no_lead (reverse x) -> rstrip (x ++ q) = x ++ rstrip q.
Proof.
  intros Hx Htrail. unfold rstrip. rewrite reverse_app.
  destruct (reverse x) as [|d x'] eqn:Hrev.
  { apply (f_equal length) in Hrev. rewrite length_reverse in Hrev.
    destruct x; [done | discriminate]. }
  simpl in Htrail. rewrite lstrip_app_nonspace by done.
  rewrite reverse_app, <- Hrev. by rewrite reverse_involutive.
Qed.

Lemma strip_keeps_substring (o s : str) :
  no_lead o -> no_lead (reverse o) -> substring o s -> substring o (strip s).
Proof.
  intros Hlead Htrail (p & q & ->).
  destruct o as [|c o]; [by exists [], (strip (p ++ [] ++ q))|].
  simpl in Hlead. unfold strip.
  change (lstrip (p ++ (c :: o) ++ q)) with (lstrip (p ++ c :: (o ++ q))).
  rewrite lstrip_app_nonspace by done.
  change (lstrip p ++ c :: o ++ q) with (lstrip p ++ (c :: o) ++ q).
  rewrite app_assoc, rstrip_app_nonspace.
  - exists (lstrip p), (rstrip q). by rewrite <- app_assoc.
  - by destruct (lstrip p).
  - rewrite reverse_app. destruct (reverse (c :: o)) as [|d o'] eqn:Hrev; [|done].
    apply (f_equal length) in Hrev. rewrite length_reverse in Hrev. done.
Qed.

Lemma filter_keeps_substring (P : N -> Prop) `{!forall c, Decision (P c)} (o s : str) :
  (forall c, c ∈ o -> P c) -> substring o s -> substring o (filter P s).
Proof.
  intros Ho (p & q & ->). exists (filter P p), (filter P q).
  by rewrite !filter_app, (filter_all P o).
Qed.

Lemma clean_text_keeps_substring (o text : str) :
  (forall c, c ∈ o -> in_kept_class c = true) ->
  no_lead o -> no_lead (reverse o) ->
  substring o text -> substring o (clean_text text).
Proof.
  intros Hkept Hlead Htrail Hsub. rewrite clean_text_filter.
  apply strip_keeps_substring; [done | done |].
  by apply filter_keeps_substring.
Qed.

(** The names of [kansas_outlets] are made of spared characters and have
    no white space at their ends. *)
Lemma outlet_names_survive (outlet : str) :
  outlet ∈ kansas_outlets ->
  Forall (fun c => in_kept_class c = true) outlet
  /\ no_lead outlet /\ no_lead (reverse outlet).
Proof.
  unfold kansas_outlets. intros Ho.
  repeat (apply elem_of_cons in Ho as [-> | Ho];
          [split_and!; [repeat constructor | reflexivity | reflexivity]|]).
  by apply elem_of_nil in Ho.
Qed.

(** X17. The star is borne out by what is shown: the cleaned publisher name
    of an article with the regional flag still holds the name of an outlet
    of [kansas_outlets]. *)
Theorem flagged_publisher_names_an_outlet (google_news : provider) (days : Z)
    (exclude_gov exclude_quiver : bool) :
  Forall (fun a =>
            a_is_kansas a = true ->
            exists outlet, outlet ∈ kansas_outlets /\ substring outlet (a_media a))
         (search_jerry_moran_news google_news days exclude_gov exclude_quiver).1.
Proof.
  apply Forall_forall. intros a Ha.
  rewrite run_articles in Ha. apply list_elem_of_fmap in Ha as (e & -> & _).
  unfold article_of; cbn [a_is_kansas a_media].
  intros (outlet & Houtlet & Hin)%existsb_exists.
  apply list_elem_of_In in Houtlet. apply contains_spec in Hin.
  exists outlet. split; [done|].
  destruct (outlet_names_survive outlet Houtlet) as (Hkept & Hlead & Htrail).
  apply clean_text_keeps_substring; [|done ..].
  by apply Forall_forall.
Qed.
End FlagAndName.

(** ** The examples *)

(** The examples are ASCII text, so they run the same with any tables. *)
Section AnyTables.
Context `{UnicodeData}.

(** The end-to-end example of the specification, with both filters and with
    the filter on ".gov" switched off. *)
Example end_to_end_filtered :
  search_jerry_moran_news end_to_end 3 true true
  = ([ item "Moran Talks Farm Bill" "KWCH" "https://x/a1" true "Mon, 06 Jan 2025";
       item "Senate passes bill" "CNN" "https://x/c1" false "Tue, 07 Jan 2025" ],
     4%nat).
Proof. vm_compute. reflexivity. Qed.

Example end_to_end_with_gov :
  search_jerry_moran_news end_to_end 3 false true
  = ([ item "Moran Talks Farm Bill" "KWCH" "https://x/a1" true "Mon, 06 Jan 2025";
       item "Grant announced" "Example.gov" "https://x/g2" false "Sun, 05 Jan 2025";
       item "Senate passes bill" "CNN" "https://x/c1" false "Tue, 07 Jan 2025" ],
     4%nat).
Proof. vm_compute. reflexivity. Qed.

Example end_to_end_merged :
  merged_entries end_to_end 3
  = [ convert farm_bill_kwch; convert gov_notice; convert farm_bill_wibw;
      convert cnn_report ].
Proof. vm_compute. reflexivity. Qed.

Example end_to_end_warnings :
  warned (fan_out end_to_end 3)
  = [ lit "Senator Jerry Moran"; lit "Sen. Moran"; lit "Sen. Jerry Moran";
      lit "Sens. Moran"; lit "Sens. Jerry Moran" ].
Proof. vm_compute. reflexivity. Qed.

(** What the code and what the specification make of the odd titles. *)
Example odd_titles_cleaned :
  (search_jerry_moran_news odd_titles 3 true true).1
  = [ item "Moran visits" "KWCH" "https://x/t1" true "Mon, 06 Jan 2025";
      item "farm_bill vote" "CNN" "https://x/u1" false "Mon, 06 Jan 2025" ]
  /\ spec_safe_title (entry_title twice_named) (entry_publisher_title twice_named)
     = lit "Moran - KWCH visits"
  /\ spec_safe_title (entry_title with_underscore) (entry_publisher_title with_underscore)
     = lit "farmbill vote".
Proof. split_and!; vm_compute; reflexivity. Qed.

(** The run in which every search term raises, one of them late. *)
Example interrupted_run :
  search_jerry_moran_news interrupted 3 true true
  = ([ item "Moran Talks Farm Bill" "KWCH" "https://x/a1" true "Mon, 06 Jan 2025" ],
     1%nat)
  /\ warned (fan_out interrupted 3) = search_terms
  /\ offered_by_successful interrupted 3 = [].
Proof. split_and!; vm_compute; reflexivity. Qed.
End AnyTables.

#[local] Existing Instance ascii_tables.

(** C2, witness. With the filter on ".gov" switched off, the notice of
    Example.gov is returned. *)
Lemma source_filters_exact_witness :
  substring (lit ".gov") (e_source_title (convert gov_notice))
  /\ (article_of kansas_outlets (convert gov_notice)
        ∈ (search_jerry_moran_news end_to_end 3 false true).1
      \/ exists a,
           a ∈ (search_jerry_moran_news end_to_end 3 false true).1
           /\ a_title a = safe_title (convert gov_notice)
           /\ a_link a <> e_link (convert gov_notice)).
Proof.
  split; [apply contains_spec; vm_compute; reflexivity|].
  destruct (source_filters_exact end_to_end 3 false true) as (_ & _ & Hkeep).
  apply Hkeep.
  - rewrite end_to_end_merged. right. left.
  - intros Hon. discriminate Hon.
  - intros _. apply contains_false. vm_compute. reflexivity.
Defined.

(** C3, counterexample. A title that names its publisher twice loses both
    occurrences, not only the trailing one, and an underscore stays in the
    cleaned title. *)
Lemma cleaned_title_not_trailing_strip :
  (search_jerry_moran_news odd_titles 3 true true).1
  = [ item "Moran visits" "KWCH" "https://x/t1" true "Mon, 06 Jan 2025";
      item "farm_bill vote" "CNN" "https://x/u1" false "Mon, 06 Jan 2025" ]
  /\ spec_safe_title (entry_title twice_named) (entry_publisher_title twice_named)
     = lit "Moran - KWCH visits"
  /\ spec_safe_title (entry_title with_underscore) (entry_publisher_title with_underscore)
     = lit "farmbill vote".
Proof. split_and!; vm_compute; reflexivity. Qed.

(** C3, witness. The occurrence in the middle of a title is removed. *)
Lemma cleaned_title_and_publisher_witness :
  replace (lit "Moran" ++ (lit " - " ++ lit "KWCH") ++ lit " visits")
          (lit " - " ++ lit "KWCH") []
  = lit "Moran" ++ replace (lit " visits") (lit " - " ++ lit "KWCH") [].
Proof.
  destruct (cleaned_title_and_publisher odd_titles 3 true true)
    as (_ & _ & _ & _ & _ & _ & Hocc).
  apply Hocc. apply contains_false. vm_compute. reflexivity.
Defined.

(** C4, counterexample. All seven search terms raise, the first one after a
    record was merged: no search term is successful, yet the run returns
    that record and a raw count of one. *)
Lemma interrupted_run_not_empty :
  Forall (fun search_term => raised (interrupted (configure 3) search_term) = true)
         search_terms
  /\ offered_by_successful interrupted 3 = []
  /\ search_jerry_moran_news interrupted 3 true true
     = ([ item "Moran Talks Farm Bill" "KWCH" "https://x/a1" true "Mon, 06 Jan 2025" ],
        1%nat).
Proof.
  split_and!; [| vm_compute; reflexivity ..].
  unfold search_terms. repeat (constructor; [vm_compute; reflexivity|]). constructor.
Qed.

(** C4, witness. Every call raises: no article, a raw count of zero, and
    seven warnings. *)
Lemma raising_search_terms_absorbed_witness :
  search_jerry_moran_news unreachable 3 true true = ([], 0%nat)
  /\ warned (fan_out unreachable 3) = search_terms.
Proof.
  destruct (raising_search_terms_absorbed unreachable 3 true true)
    as (_ & Hwarned & _ & _ & Hnone).
  split.
  - apply Hnone. intros search_term _. unfold unreachable, answers.
    repeat case_decide; reflexivity.
  - rewrite Hwarned. vm_compute. reflexivity.
Defined.

(** C5, witness. The report of WIBW comes third among the records handed
    over, behind a second copy of the report of KWCH, and is merged. *)
Lemma first_seen_order_preserved_witness :
  convert farm_bill_wibw ∈ merged_entries end_to_end 3.
Proof.
  destruct (first_seen_order_preserved end_to_end 3 true true)
    as (_ & _ & Hfirst & _).
  apply (Hfirst [convert farm_bill_kwch; convert gov_notice; convert farm_bill_kwch]
                (convert farm_bill_wibw) [convert cnn_report]).
  - vm_compute. reflexivity.
  - apply (proj1 (bool_decide_eq_false _)). vm_compute. reflexivity.
Defined.

(** C6, counterexample. The raw count of the interrupted run is one, while
    the search terms that did not raise have no link at all. *)
Lemma interrupted_count_not_successful :
  (search_jerry_moran_news interrupted 3 true true).2 = 1%nat
  /\ distinct_links (offered_by_successful interrupted 3) = 0%nat.
Proof. split; vm_compute; reflexivity. Qed.

(** C7, witness. The report of KWCH is flagged, so an outlet of the list
    occurs in its publisher name. *)
Lemma regional_flag_iff_outlet_substring_witness :
  exists outlet,
    outlet ∈ kansas_outlets
    /\ substring outlet (e_source_title (convert farm_bill_kwch)).
Proof.
  destruct (regional_flag_iff_outlet_substring end_to_end 3 true true)
    as (_ & Hflag & _).
  apply (Hflag (item "Moran Talks Farm Bill" "KWCH" "https://x/a1" true "Mon, 06 Jan 2025")
               (convert farm_bill_kwch)).
  - rewrite end_to_end_filtered. left.
  - rewrite end_to_end_merged. left.
  - reflexivity.
  - reflexivity.
Defined.

(** C10, witness. The press release is dropped by the filter on ".gov";
    the report behind it has the same cleaned title and another link, and
    is returned. *)
Lemma filtered_records_leave_no_title_witness :
  safe_title (convert press_release) = safe_title (convert farm_bill_kwch)
  /\ e_link (convert press_release) <> e_link (convert farm_bill_kwch)
  /\ article_of kansas_outlets (convert farm_bill_kwch)
       ∈ (search_jerry_moran_news same_title 3 true true).1.
Proof.
  split_and!; [vm_compute; reflexivity | vm_compute; discriminate |].
  apply (filtered_records_leave_no_title same_title 3 true true [] [] []
           (convert press_release) (convert farm_bill_kwch)).
  - vm_compute. reflexivity.
  - vm_compute. reflexivity.
  - vm_compute. reflexivity.
  - intros x Hx%elem_of_nil. destruct Hx.
Defined.


(** X7, witness. Four search terms answer with the same two reports and the
    others with nothing: two records are merged. *)
Lemma later_terms_without_new_links_witness :
  merged_entries repeating 3 = [ convert farm_bill_kwch; convert cnn_report ]
  /\ (search_jerry_moran_news repeating 3 true true).2 = 2%nat.
Proof.
  destruct (later_terms_without_new_links repeating 3 true true) as [Hmerged Hcount].
  - intros search_term entry Hterm. revert entry. apply Forall_forall.
    revert search_term Hterm. apply Forall_forall.
    apply (proj1 (bool_decide_eq_true _)). vm_compute. reflexivity.
  - split.
    + rewrite Hmerged. vm_compute. reflexivity.
    + rewrite Hcount. vm_compute. reflexivity.
Defined.

(** X9, witness. No response of the end-to-end example is longer than a
    hundred records. *)
Lemma raw_count_within_cap_witness :
  ((search_jerry_moran_news end_to_end 3 true true).2 <= 700)%nat
  /\ (length (search_jerry_moran_news end_to_end 3 true true).1 <= 700)%nat.
Proof.
  apply (raw_count_within_cap end_to_end 3 true true).
  apply Forall_forall.
  apply (proj1 (bool_decide_eq_true _)). vm_compute. reflexivity.
Defined.

(** X13, witness. Two articles that differ in the publication date only
    have the same line, and the line tells all but the date. *)
Lemma markdown_line_determines_article_witness :
  a_published (item "Moran Talks Farm Bill" "KWCH" "https://x/a1" true "Mon, 06 Jan 2025")
  <> a_published (item "Moran Talks Farm Bill" "KWCH" "https://x/a1" true "Tue, 07 Jan 2025")
  /\ a_link (item "Moran Talks Farm Bill" "KWCH" "https://x/a1" true "Mon, 06 Jan 2025")
     = a_link (item "Moran Talks Farm Bill" "KWCH" "https://x/a1" true "Tue, 07 Jan 2025").
Proof.
  split; [vm_compute; discriminate|].
  apply (markdown_line_determines_article
           (item "Moran Talks Farm Bill" "KWCH" "https://x/a1" true "Mon, 06 Jan 2025")
           (item "Moran Talks Farm Bill" "KWCH" "https://x/a1" true "Tue, 07 Jan 2025")).
  - split; vm_compute; reflexivity.
  - split; vm_compute; reflexivity.
  - vm_compute. reflexivity.
Defined.

(** X16, witness. The line of a flagged article starts with the star. *)
Lemma star_marks_kansas_witness :
  startswith
    (text_line (item "Moran Talks Farm Bill" "KWCH" "https://x/a1" true "Mon, 06 Jan 2025"))
    (lit "*")
  = true
  /\ startswith
       (markdown_line (item "Senate passes bill" "CNN" "https://x/c1" false "Tue, 07 Jan 2025"))
       (lit "- *")
     = false.
Proof.
  split.
  - apply (star_marks_kansas
             (item "Moran Talks Farm Bill" "KWCH" "https://x/a1" true "Mon, 06 Jan 2025")).
    split; vm_compute; reflexivity.
  - apply (star_marks_kansas
             (item "Senate passes bill" "CNN" "https://x/c1" false "Tue, 07 Jan 2025")).
    split; vm_compute; reflexivity.
Defined.
